(** * SIP proxy network filter: connection manager, metadata and router tables

    Shallow embedding of
      source/extensions/filters/network/sip_proxy/metadata.h
      source/extensions/filters/network/sip_proxy/conn_manager.cc
      source/extensions/filters/network/sip_proxy/app_exception_impl.cc
      source/extensions/filters/network/sip_proxy/router/router_impl.h

    Conventions.  A C++ [absl::optional<T>] is [option T]; a
    [std::shared_ptr<T>] or raw pointer that may be null is [option] of a
    handle; hash maps keyed by strings are [gmap string _]; an exception that
    escapes a function is the [Throw] branch of [Result].  Objects that the
    code refers to by address (ActiveTrans, UpstreamRequest) are natural-number
    handles. *)

From Stdlib Require Import ZArith Ascii String List Lia.
From stdpp Require Import base option list strings gmap fin_maps.

Local Open Scope string_scope.

(** ** Part 1: absl::string_view operations used by the metadata setters *)

Module StringView.

(** [s.substr(0, p.size()) == p] *)
Fixpoint starts_with (p s : string) : bool :=
  match p, s with
  | EmptyString, _ => true
  | String _ _, EmptyString => false
  | String a p', String b s' => if Ascii.eqb a b then starts_with p' s' else false
  end.

(** [s.find(needle)]; [None] is [npos]. *)
Fixpoint find (s needle : string) : option nat :=
  if starts_with needle s then Some 0
  else match s with
       | EmptyString => None
       | String _ s' => option_map S (find s' needle)
       end.

(** Membership of a character in the set given to [find_first_of]. *)
Fixpoint char_in (c : ascii) (chars : string) : bool :=
  match chars with
  | EmptyString => false
  | String d chars' => if Ascii.eqb c d then true else char_in c chars'
  end.

(** [s.find_first_of(chars, pos)]; [None] is [npos]. *)
Fixpoint find_first_of (s chars : string) (pos : nat) : option nat :=
  match s with
  | EmptyString => None
  | String c s' =>
      match pos with
      | S p => option_map S (find_first_of s' chars p)
      | O => if char_in c chars then Some 0
             else option_map S (find_first_of s' chars 0)
      end
  end.

Fixpoint drop (n : nat) (s : string) : string :=
  match n, s with
  | O, _ => s
  | S _, EmptyString => EmptyString
  | S n', String _ s' => drop n' s'
  end.

Fixpoint take (n : nat) (s : string) : string :=
  match n, s with
  | O, _ => EmptyString
  | S _, EmptyString => EmptyString
  | S n', String c s' => String c (take n' s')
  end.

(** [s.substr(pos, n)] for [pos <= s.size()] (the count is clipped to the
    end of the view).  The one caller below always passes such a [pos];
    see [setTransactionId_start_in_range]. *)
Definition substr (s : string) (pos n : nat) : string := take n (drop pos s).

(** [needle] occurs in [s] at offset [i]. *)
Definition occurs_at (needle s : string) (i : nat) : Prop :=
  ∃ pre post, s = pre +:+ needle +:+ post ∧ String.length pre = i.

(** No character of [chars] occurs in [s]. *)
Fixpoint none_of (chars s : string) : bool :=
  match s with
  | EmptyString => true
  | String c s' => negb (char_in c chars) && none_of chars s'
  end.

(** [s] is empty or begins with a character of [chars]. *)
Definition stops_at (chars s : string) : Prop :=
  s = "" ∨ ∃ c s', s = String c s' ∧ char_in c chars = true.

(** The bytes [data] contain the parameter [ep=<ip>]. *)
Definition carries_ep (ip data : string) : Prop :=
  ∃ i, occurs_at ("ep=" +:+ ip) data i.

End StringView.

(** ** Part 2: MessageMetadata (metadata.h) *)

(** Modelled from the spec: the [MsgType] and [MethodType] enumerations of
    sip.h, which is not part of the sources at hand ("message kind
    (Request|Response); request method (INVITE, ACK, BYE, CANCEL, REGISTER,
    OPTIONS, ...)"). *)
Inductive MsgType := Request | Response.

Inductive MethodType := Invite | Ack | Bye | Cancel | Register | Options | OtherMethod.

Global Instance MethodType_eq_dec : EqDecision MethodType.
Proof. solve_decision. Defined.

(** The string-valued optional views of [class MessageMetadata].  The
    operation list is left out: none of the functions below reads it. *)
Record MessageMetadata := mkMessageMetadata {
  msg_type_ : MsgType;
  method_type_ : MethodType;
  resp_method_type_ : MethodType;
  ep_ : option string;
  route_ep_ : option string;
  route_opaque_ : option string;
  request_uri_ : option string;
  top_route_ : option string;
  domain_ : option string;
  transaction_id_ : option string;
  destination_ : option string;
  raw_msg_ : string
}.

Module Metadata.
Import StringView.

Definition methodType (m : MessageMetadata) := method_type_ m.
Definition EP (m : MessageMetadata) := ep_ m.
Definition transactionId (m : MessageMetadata) := transaction_id_ m.
Definition destination (m : MessageMetadata) := destination_ m.

Definition setEP (data : string) (m : MessageMetadata) : MessageMetadata :=
  {| msg_type_ := msg_type_ m; method_type_ := method_type_ m;
     resp_method_type_ := resp_method_type_ m;
     ep_ := Some data;
     route_ep_ := route_ep_ m; route_opaque_ := route_opaque_ m;
     request_uri_ := request_uri_ m; top_route_ := top_route_ m;
     domain_ := domain_ m; transaction_id_ := transaction_id_ m;
     destination_ := destination_ m; raw_msg_ := raw_msg_ m |}.

Definition setDestination (data : string) (m : MessageMetadata) : MessageMetadata :=
  {| msg_type_ := msg_type_ m; method_type_ := method_type_ m;
     resp_method_type_ := resp_method_type_ m;
     ep_ := ep_ m;
     route_ep_ := route_ep_ m; route_opaque_ := route_opaque_ m;
     request_uri_ := request_uri_ m; top_route_ := top_route_ m;
     domain_ := domain_ m; transaction_id_ := transaction_id_ m;
     destination_ := Some data; raw_msg_ := raw_msg_ m |}.

Definition with_transaction_id (t : option string) (m : MessageMetadata) : MessageMetadata :=
  {| msg_type_ := msg_type_ m; method_type_ := method_type_ m;
     resp_method_type_ := resp_method_type_ m;
     ep_ := ep_ m;
     route_ep_ := route_ep_ m; route_opaque_ := route_opaque_ m;
     request_uri_ := request_uri_ m; top_route_ := top_route_ m;
     domain_ := domain_ m; transaction_id_ := t;
     destination_ := destination_ m; raw_msg_ := raw_msg_ m |}.

(** [strlen("branch=")] *)
Definition branch_key : string := "branch=".

(** The end offset computed by [setTransactionId]:
    [find_first_of(";>", start_index)], or [data.size()] on [npos]. *)
Definition end_index (data : string) (start_index : nat) : nat :=
  match find_first_of data ";>" start_index with
  | Some e => e
  | None => String.length data
  end.

(** [void setTransactionId(absl::string_view data)]: input is the full SIP
    header. *)
Definition setTransactionId (data : string) (m : MessageMetadata) : MessageMetadata :=
  match find data branch_key with
  | None => m
  | Some i =>
      let start_index := i + String.length branch_key in
      let e := end_index data start_index in
      with_transaction_id (Some (substr data start_index (e - start_index))) m
  end.

Definition resetTransactionId (m : MessageMetadata) : MessageMetadata :=
  with_transaction_id None m.

End Metadata.

(** ** Part 3: exceptions and the state-and-exception monad

    C++ exceptions unwind the stack but leave every mutation made before the
    [throw] in place, so a computation maps a state to an outcome together
    with the state reached. *)

Inductive AppExceptionType := ProtocolError | OtherAppException.

(** [class AppException : public EnvoyException, public DirectResponse] *)
Record AppException := mkAppException {
  app_type_ : AppExceptionType;
  app_what_ : string
}.

Inductive Exception :=
  | out_of_range
  | bad_optional_access
  | null_dereference
  | bad_any_cast
  | bad_function_call
  | EnvoyException (what : string)
  | AppExceptionThrown (ex : AppException).

Inductive Result (A : Type) :=
  | Ok (a : A)
  | Throw (e : Exception).
Arguments Ok {A} a.
Arguments Throw {A} e.

Definition M (S A : Type) : Type := S → Result A * S.

Definition ret {S A} (a : A) : M S A := λ s, (Ok a, s).
Definition throw {S A} (e : Exception) : M S A := λ s, (Throw e, s).
Definition bind {S A B} (m : M S A) (k : A → M S B) : M S B :=
  λ s, match m s with
       | (Ok a, s') => k a s'
       | (Throw e, s') => (Throw e, s')
       end.
Definition get {S} : M S S := λ s, (Ok s, s).
Definition modify {S} (f : S → S) : M S unit := λ s, (Ok tt, f s).
(** [try { m } catch (...) { h e }]; the handler may rethrow. *)
Definition try_catch {S A} (m : M S A) (h : Exception → M S A) : M S A :=
  λ s, match m s with
       | (Ok a, s') => (Ok a, s')
       | (Throw e, s') => h e s'
       end.

Declare Scope cpp_scope.
Delimit Scope cpp_scope with cpp.
Notation "x <~ m ;; k" := (bind m (λ x, k))
  (at level 100, m at next level, right associativity) : cpp_scope.
Notation "m ;;; k" := (bind m (λ _, k))
  (at level 100, right associativity) : cpp_scope.
Local Open Scope cpp_scope.

(** [absl::optional<T>::value()] *)
Definition value {S A} (o : option A) : M S A :=
  match o with
  | Some a => ret a
  | None => throw bad_optional_access
  end.

(** [flat_hash_map::at(k)] *)
Definition map_at {S V} (m : gmap string V) (k : string) : M S V :=
  match m !! k with
  | Some v => ret v
  | None => throw out_of_range
  end.

(** [map.emplace(k, v)]: inserts only when the key is not yet present. *)
Definition emplace {V} (k : string) (v : V) (m : gmap string V) : gmap string V :=
  match m !! k with
  | Some _ => m
  | None => <[k := v]> m
  end.

(** ** Part 4: the downstream connection and the filter statistics *)

Abbreviation Buffer := string (only parsing).

Module Network.

Inductive State := Open | Closing | Closed.
Inductive ConnectionCloseType := FlushWrite | NoFlush.
Inductive ConnectionEvent := RemoteClose | LocalClose | Connected.

(** Calls made on [read_callbacks_->connection()]. *)
Inductive Call :=
  | write (data : Buffer) (end_stream : bool)
  | close (type : ConnectionCloseType).

(** The connection belongs to the network layer.  The filter observes its
    [state()] and local address and issues calls; the calls are recorded in
    order.  No function below reads [state()] after issuing a call. *)
Record Connection := mkConnection {
  state : State;
  local_address : string;
  calls : list Call
}.

Definition call (c : Call) (conn : Connection) : Connection :=
  {| state := state conn; local_address := local_address conn;
     calls := calls conn ++ [c] |}.

Global Instance State_eq_dec : EqDecision State.
Proof. solve_decision. Defined.

End Network.

Record SipFilterStats := mkStats {
  cx_destroy_local_with_active_rq_ : nat;
  cx_destroy_remote_with_active_rq_ : nat;
  request_ : nat;
  response_ : nat;
  response_success_ : nat;
  response_error_ : nat;
  response_exception_ : nat
}.

Inductive StatCounter :=
  | cx_destroy_local_with_active_rq
  | cx_destroy_remote_with_active_rq
  | request
  | response
  | response_success
  | response_error
  | response_exception.

(** [stats_.<counter>_.inc()] *)
Definition inc (c : StatCounter) (s : SipFilterStats) : SipFilterStats :=
  match c with
  | cx_destroy_local_with_active_rq =>
      mkStats (S (cx_destroy_local_with_active_rq_ s)) (cx_destroy_remote_with_active_rq_ s)
              (request_ s) (response_ s) (response_success_ s) (response_error_ s)
              (response_exception_ s)
  | cx_destroy_remote_with_active_rq =>
      mkStats (cx_destroy_local_with_active_rq_ s) (S (cx_destroy_remote_with_active_rq_ s))
              (request_ s) (response_ s) (response_success_ s) (response_error_ s)
              (response_exception_ s)
  | request =>
      mkStats (cx_destroy_local_with_active_rq_ s) (cx_destroy_remote_with_active_rq_ s)
              (S (request_ s)) (response_ s) (response_success_ s) (response_error_ s)
              (response_exception_ s)
  | response =>
      mkStats (cx_destroy_local_with_active_rq_ s) (cx_destroy_remote_with_active_rq_ s)
              (request_ s) (S (response_ s)) (response_success_ s) (response_error_ s)
              (response_exception_ s)
  | response_success =>
      mkStats (cx_destroy_local_with_active_rq_ s) (cx_destroy_remote_with_active_rq_ s)
              (request_ s) (response_ s) (S (response_success_ s)) (response_error_ s)
              (response_exception_ s)
  | response_error =>
      mkStats (cx_destroy_local_with_active_rq_ s) (cx_destroy_remote_with_active_rq_ s)
              (request_ s) (response_ s) (response_success_ s) (S (response_error_ s))
              (response_exception_ s)
  | response_exception =>
      mkStats (cx_destroy_local_with_active_rq_ s) (cx_destroy_remote_with_active_rq_ s)
              (request_ s) (response_ s) (response_success_ s) (response_error_ s)
              (S (response_exception_ s))
  end.

(** ** Part 5: DirectResponse and AppException (app_exception_impl.cc) *)

Inductive ResponseType := SuccessReply | ErrorReply | ExceptionReply.

(** [DirectResponse::encode(MessageMetadata&, Buffer::Instance&)]: both
    arguments are passed by reference, so an implementation reports its
    reply type together with the metadata and buffer it leaves behind. *)
Class DirectResponse (R : Type) := {
  response_encode : R → MessageMetadata → Buffer → ResponseType * MessageMetadata * Buffer
}.

(** [AppException::encode] touches neither argument. *)
Global Instance AppException_DirectResponse : DirectResponse AppException := {
  response_encode _ metadata buffer := (ExceptionReply, metadata, buffer)
}.

(** ** Part 6: ConnectionManager and ActiveTrans (conn_manager.cc) *)

Module ConnManager.
Import Network Metadata.

(** Modelled from the spec: [FilterStatus] of decoder_events.h and
    [SipFilters::ResponseStatus] of filters/filter.h, neither among the
    sources at hand ("any stage may return StopIteration"; the statuses
    [upstreamData] returns). *)
Inductive FilterStatus := Continue | StopIteration.
Inductive ResponseStatus := MoreData | Complete | Reset.

(** The four decoder events; [filter_action_] is a closure over one of
    them. *)
Inductive Stage := TransportBegin | MessageBegin | MessageEnd | TransportEnd.

(** [ConnectionManager::ResponseDecoder] *)
Record ResponseDecoder := mkResponseDecoder {
  rd_metadata_ : option MessageMetadata
}.

(** [ConnectionManager::ActiveTrans].  Decoder filters are handles of
    filter objects; [filter_action_ = None] is the empty [std::function],
    [filter_context_ = None] the empty [absl::any]. *)
Record ActiveTrans := mkActiveTrans {
  trans_id_ : string;
  metadata_ : option MessageMetadata;
  local_response_sent_ : bool;
  response_decoder_ : option ResponseDecoder;
  decoder_filters_ : list nat;
  filter_action_ : option Stage;
  filter_context_ : option MessageMetadata
}.

Definition transactionId_of (t : ActiveTrans) : string := trans_id_ t.

Definition set_metadata (md : option MessageMetadata) (t : ActiveTrans) : ActiveTrans :=
  mkActiveTrans (trans_id_ t) md (local_response_sent_ t) (response_decoder_ t)
                (decoder_filters_ t) (filter_action_ t) (filter_context_ t).
Definition set_local_response_sent (b : bool) (t : ActiveTrans) : ActiveTrans :=
  mkActiveTrans (trans_id_ t) (metadata_ t) b (response_decoder_ t)
                (decoder_filters_ t) (filter_action_ t) (filter_context_ t).
Definition set_response_decoder (rd : option ResponseDecoder) (t : ActiveTrans) : ActiveTrans :=
  mkActiveTrans (trans_id_ t) (metadata_ t) (local_response_sent_ t) rd
                (decoder_filters_ t) (filter_action_ t) (filter_context_ t).
Definition set_filter_action (a : option Stage) (t : ActiveTrans) : ActiveTrans :=
  mkActiveTrans (trans_id_ t) (metadata_ t) (local_response_sent_ t) (response_decoder_ t)
                (decoder_filters_ t) a (filter_context_ t).
Definition set_filter_context (c : option MessageMetadata) (t : ActiveTrans) : ActiveTrans :=
  mkActiveTrans (trans_id_ t) (metadata_ t) (local_response_sent_ t) (response_decoder_ t)
                (decoder_filters_ t) (filter_action_ t) c.

(** The transaction once its response decoder has taken in a response
    ([metadata_ = metadata] in [ResponseDecoder::onData]). *)
Definition received (metadata : MessageMetadata) (t : ActiveTrans) : ActiveTrans :=
  set_response_decoder (Some (mkResponseDecoder (Some metadata))) t.

(** The transaction once a filter walk has run to its end
    ([filter_action_ = nullptr; filter_context_.reset()]). *)
Definition cleared (t : ActiveTrans) : ActiveTrans :=
  set_filter_context None (set_filter_action None t).

(** One ConnectionManager per downstream connection.  [heap] holds the
    live ActiveTrans objects by address and [next_addr] is the next address
    [std::make_unique] hands out; [transactions_] owns its values;
    [deferred_delete] is the dispatcher's deferred-delete list, whose
    objects stay alive until the dispatcher clears it.  [decoder_metadata]
    is [decoder_->metadata()], the metadata of the message being decoded.
    [local_reply_calls] is a history variable, not a member of the class:
    it counts the calls of [ConnectionManager::sendLocalReply]. *)
Record ConnectionManager := mkConnectionManager {
  connection : Connection;
  stats_ : SipFilterStats;
  heap : gmap nat ActiveTrans;
  next_addr : nat;
  transactions_ : gmap string nat;
  deferred_delete : list nat;
  p_cookie_ip_map_ : gmap string string;
  decoder_metadata : MessageMetadata;
  local_reply_calls : nat
}.

Definition upd_connection (f : Connection → Connection) (cm : ConnectionManager) :=
  mkConnectionManager (f (connection cm)) (stats_ cm) (heap cm) (next_addr cm)
    (transactions_ cm) (deferred_delete cm) (p_cookie_ip_map_ cm) (decoder_metadata cm)
    (local_reply_calls cm).
Definition upd_stats (f : SipFilterStats → SipFilterStats) (cm : ConnectionManager) :=
  mkConnectionManager (connection cm) (f (stats_ cm)) (heap cm) (next_addr cm)
    (transactions_ cm) (deferred_delete cm) (p_cookie_ip_map_ cm) (decoder_metadata cm)
    (local_reply_calls cm).
Definition upd_heap (f : gmap nat ActiveTrans → gmap nat ActiveTrans) (cm : ConnectionManager) :=
  mkConnectionManager (connection cm) (stats_ cm) (f (heap cm)) (next_addr cm)
    (transactions_ cm) (deferred_delete cm) (p_cookie_ip_map_ cm) (decoder_metadata cm)
    (local_reply_calls cm).
Definition upd_next_addr (f : nat → nat) (cm : ConnectionManager) :=
  mkConnectionManager (connection cm) (stats_ cm) (heap cm) (f (next_addr cm))
    (transactions_ cm) (deferred_delete cm) (p_cookie_ip_map_ cm) (decoder_metadata cm)
    (local_reply_calls cm).
Definition upd_transactions (f : gmap string nat → gmap string nat) (cm : ConnectionManager) :=
  mkConnectionManager (connection cm) (stats_ cm) (heap cm) (next_addr cm)
    (f (transactions_ cm)) (deferred_delete cm) (p_cookie_ip_map_ cm) (decoder_metadata cm)
    (local_reply_calls cm).
Definition upd_deferred_delete (f : list nat → list nat) (cm : ConnectionManager) :=
  mkConnectionManager (connection cm) (stats_ cm) (heap cm) (next_addr cm)
    (transactions_ cm) (f (deferred_delete cm)) (p_cookie_ip_map_ cm) (decoder_metadata cm)
    (local_reply_calls cm).
Definition upd_p_cookie_ip_map (f : gmap string string → gmap string string)
    (cm : ConnectionManager) :=
  mkConnectionManager (connection cm) (stats_ cm) (heap cm) (next_addr cm)
    (transactions_ cm) (deferred_delete cm) (f (p_cookie_ip_map_ cm)) (decoder_metadata cm)
    (local_reply_calls cm).
Definition upd_decoder_metadata (f : MessageMetadata → MessageMetadata)
    (cm : ConnectionManager) :=
  mkConnectionManager (connection cm) (stats_ cm) (heap cm) (next_addr cm)
    (transactions_ cm) (deferred_delete cm) (p_cookie_ip_map_ cm) (f (decoder_metadata cm))
    (local_reply_calls cm).

Definition upd_local_reply_calls (f : nat → nat) (cm : ConnectionManager) :=
  mkConnectionManager (connection cm) (stats_ cm) (heap cm) (next_addr cm)
    (transactions_ cm) (deferred_delete cm) (p_cookie_ip_map_ cm) (decoder_metadata cm)
    (f (local_reply_calls cm)).

(** Access to an ActiveTrans through its address. *)
Definition deref (p : nat) : M ConnectionManager ActiveTrans :=
  cm <~ get ;;
  match heap cm !! p with
  | Some t => ret t
  | None => throw null_dereference
  end.

Definition store (p : nat) (f : ActiveTrans → ActiveTrans) : M ConnectionManager unit :=
  t <~ deref p ;;
  modify (upd_heap <[p := f t]>).

(** Dereference of a possibly-null pointer member. *)
Definition nonnull {A} (o : option A) : M ConnectionManager A :=
  match o with
  | Some a => ret a
  | None => throw null_dereference
  end.

(** [std::string::empty()] *)
Definition empty (s : string) : bool :=
  match s with
  | EmptyString => true
  | String _ _ => false
  end.

(** Modelled from the spec: [getLocalIp()], declared in conn_manager.h which
    is not among the sources; "the proxy's local IP", read off the
    downstream connection. *)
Definition getLocalIp (cm : ConnectionManager) : string :=
  local_address (connection cm).

(** [ConnectionManager::doDeferredTransDestroy] *)
Definition doDeferredTransDestroy (trans : nat) : M ConnectionManager unit :=
  t <~ deref trans ;;
  cm <~ get ;;
  p <~ map_at (transactions_ cm) (transactionId_of t) ;;
  modify (upd_deferred_delete (λ l, (l ++ [p])%list)) ;;;
  modify (upd_transactions (delete (transactionId_of t))).

(** [ConnectionManager::ActiveTrans::onReset] *)
Definition onReset (self : nat) : M ConnectionManager unit :=
  doDeferredTransDestroy self.

(** The counter [resetAllTrans] bumps for each transaction. *)
Definition reset_counter (local_reset : bool) : StatCounter :=
  if local_reset then cx_destroy_local_with_active_rq else cx_destroy_remote_with_active_rq.

(** The loop of [resetAllTrans].  The iterator is advanced before
    [onReset] erases the element it came from, and erasing from a
    [flat_hash_map] leaves the other iterators valid, so the loop visits
    the elements that were in the map on entry. *)
Fixpoint resetAllTrans_loop (local_reset : bool) (its : list (string * nat))
    : M ConnectionManager unit :=
  match its with
  | [] => ret tt
  | it :: rest =>
      modify (upd_stats (inc (reset_counter local_reset))) ;;;
      onReset it.2 ;;;
      resetAllTrans_loop local_reset rest
  end.

(** [ConnectionManager::resetAllTrans] *)
Definition resetAllTrans (local_reset : bool) : M ConnectionManager unit :=
  cm <~ get ;;
  resetAllTrans_loop local_reset (map_to_list (transactions_ cm)).

(** Every transaction is indexed under its own transaction id, and the
    object behind it is alive. *)
Definition indexed_by_id (cm : ConnectionManager) : Prop :=
  map_Forall (λ k p, transactionId_of <$> heap cm !! p = Some k) (transactions_ cm).


(** Addresses from [next_addr] on are unused. *)
Definition allocator_fresh (cm : ConnectionManager) : Prop :=
  ∀ p : nat, (next_addr cm ≤ p)%nat → heap cm !! p = None.

(** [ConnectionManager::onEvent] *)
Definition onEvent (event : ConnectionEvent) : M ConnectionManager unit :=
  resetAllTrans (match event with LocalClose => true | _ => false end).

(** TRA response kinds and the [lskpmcs] map of a response, in the order
    in which the range-for visits it. *)
Inductive TraResponseType :=
  | CreateLskpmcResp | UpdateLskpmcResp | RetrieveLskpmcResp
  | DeleteLskpmcResp | SubscribeLskpmcResp.

Fixpoint for_each {A} (f : A → M ConnectionManager unit) (l : list A)
    : M ConnectionManager unit :=
  match l with
  | [] => ret tt
  | x :: l' => f x ;;; for_each f l'
  end.

(** Body of the range-for in the [RetrieveLskpmcResp] case; [item] is a
    key-host pair. *)
Definition retrieve_item (item : string * string) : M ConnectionManager unit :=
  if negb (empty item.2) then
    modify (upd_decoder_metadata (setDestination item.2)) ;;;
    modify (upd_p_cookie_ip_map (emplace item.1 item.2))
  else ret tt.

(** What [retrieve_item] does to the cookie map and to the destination
    of the decoder's current metadata. *)
Definition retrieve_cookie (m : gmap string string) (item : string * string)
    : gmap string string :=
  if empty item.2 then m else emplace item.1 item.2 m.

Definition retrieve_destination (metadata : MessageMetadata) (item : string * string)
    : MessageMetadata :=
  if empty item.2 then metadata else setDestination item.2 metadata.

(** Body of the range-for in the [SubscribeLskpmcResp] case. *)
Definition subscribe_item (item : string * string) : M ConnectionManager unit :=
  modify (upd_p_cookie_ip_map (emplace item.1 item.2)).

(** The [switch (result)] at the end of [sendLocalReply]. *)
Definition reply_counter (result : ResponseType) : StatCounter :=
  match result with
  | SuccessReply => response_success
  | ErrorReply => response_error
  | ExceptionReply => response_exception
  end.

Section Collaborators.

(** [EncoderImpl::encode(metadata, buffer)] into an empty buffer; the
    encoder lives in encoder.h, outside these sources. *)
Variable encode : MessageMetadata → Buffer.

(** [std::make_unique<ActiveTrans>] for this manager and [metadata], then
    [createFilterChain()]: the object as the constructor and the filter
    factory leave it (both are declared in conn_manager.h). *)
Variable make_ActiveTrans : MessageMetadata → ActiveTrans.

(** [decoder_->onData(request_buffer_, continue_handling)] *)
Variable decoder_onData : bool → M ConnectionManager unit.

(** [ConnectionManager::ResponseDecoder::transportBegin], defined in
    conn_manager.h. *)
Variable ResponseDecoder_transportBegin : MessageMetadata → FilterStatus.

(** The virtual call of one decoder event on the filter behind a
    handle. *)
Variable filter_call : nat → Stage → option MessageMetadata → M ConnectionManager FilterStatus.

Definition continueHanding : M ConnectionManager unit := decoder_onData true.
Definition dispatch : M ConnectionManager unit := decoder_onData false.

(** [ConnectionManager::sendLocalReply]; [metadata] is a reference, the
    updated referent is returned.  The first step only advances the
    history variable [local_reply_calls]. *)
Definition sendLocalReply {R} `{DirectResponse R} (metadata : MessageMetadata)
    (response : R) (end_stream : bool) : M ConnectionManager MessageMetadata :=
  modify (upd_local_reply_calls S) ;;;
  cm <~ get ;;
  if decide (state (connection cm) = Closed) then ret metadata
  else
    let '(result, metadata1, _) := response_encode response metadata "" in
    let metadata2 := setEP (getLocalIp cm) metadata1 in
    let response_buffer := encode metadata2 in
    modify (upd_connection (call (write response_buffer end_stream))) ;;;
    (if end_stream then modify (upd_connection (call (close FlushWrite))) else ret tt) ;;;
    modify (upd_stats (inc (reply_counter result))) ;;;
    ret metadata2.

(** [ConnectionManager::newDecoderEventHandler]; the result is the
    address of the ActiveTrans behind the returned reference. *)
Definition newDecoderEventHandler (metadata : MessageMetadata) : M ConnectionManager nat :=
  k <~ value (transactionId metadata) ;;
  cm <~ get ;;
  match (if decide (methodType metadata = Ack) then transactions_ cm !! k else None) with
  | Some p => ret p
  | None =>
      let new_trans := next_addr cm in
      modify (upd_next_addr S) ;;;
      modify (upd_heap <[new_trans := make_ActiveTrans metadata]>) ;;;
      match transactions_ cm !! k with
      | None => modify (upd_transactions <[k := new_trans]>)
      | Some _ =>
          (* emplace leaves the map alone; [new_trans] still owns the
             object and frees it when the function returns *)
          modify (upd_heap (delete new_trans))
      end ;;;
      cm' <~ get ;;
      map_at (transactions_ cm') k
  end.

(** [ConnectionManager::complete]; [resp] is the [lskpmcs] map of the
    response. *)
Definition complete (type : TraResponseType) (resp : list (string * string))
    : M ConnectionManager unit :=
  match type with
  | CreateLskpmcResp => ret tt
  | UpdateLskpmcResp => ret tt
  | RetrieveLskpmcResp =>
      for_each retrieve_item resp ;;;
      continueHanding
  | DeleteLskpmcResp => ret tt
  | SubscribeLskpmcResp => for_each subscribe_item resp
  end.

(** [ConnectionManager::ActiveTrans::sendLocalReply] *)
Definition ActiveTrans_sendLocalReply {R} `{DirectResponse R} (self : nat)
    (response : R) (end_stream : bool) : M ConnectionManager unit :=
  t <~ deref self ;;
  md <~ nonnull (metadata_ t) ;;
  md' <~ sendLocalReply md response end_stream ;;
  store self (set_metadata (Some md')) ;;;
  if end_stream then ret tt
  else store self (set_local_response_sent true).

(** [ConnectionManager::ActiveTrans::onError] *)
Definition onError (self : nat) (what : string) : M ConnectionManager unit :=
  t <~ deref self ;;
  match metadata_ t with
  | Some _ => ActiveTrans_sendLocalReply self (mkAppException ProtocolError what) true
  | None =>
      doDeferredTransDestroy self ;;;
      modify (upd_connection (call (close NoFlush)))
  end.

(** [ConnectionManager::ActiveTrans::startUpstreamResponse] *)
Definition startUpstreamResponse (self : nat) : M ConnectionManager unit :=
  store self (set_response_decoder (Some (mkResponseDecoder None))).

Definition ResponseDecoder_messageBegin (metadata : MessageMetadata) : FilterStatus :=
  Continue.
Definition ResponseDecoder_messageEnd : FilterStatus := Continue.

(** [ConnectionManager::ResponseDecoder::transportEnd]; the decoder is
    addressed through the ActiveTrans that owns it. *)
Definition ResponseDecoder_transportEnd (self : nat) : M ConnectionManager FilterStatus :=
  t <~ deref self ;;
  rd <~ nonnull (response_decoder_ t) ;;
  cm <~ get ;;
  if decide (state (connection cm) = Closed)
  then throw (EnvoyException "downstream connection is closed")
  else
    md <~ nonnull (rd_metadata_ rd) ;;
    let md' := setEP (getLocalIp cm) md in
    store self (set_response_decoder (Some (mkResponseDecoder (Some md')))) ;;;
    let buffer := encode md' in
    modify (upd_connection (call (write buffer false))) ;;;
    modify (upd_stats (inc response)) ;;;
    ret Continue.

(** [ConnectionManager::ResponseDecoder::onData] *)
Definition ResponseDecoder_onData (self : nat) (metadata : MessageMetadata)
    : M ConnectionManager bool :=
  t <~ deref self ;;
  _ <~ nonnull (response_decoder_ t) ;;
  store self (set_response_decoder (Some (mkResponseDecoder (Some metadata)))) ;;;
  match ResponseDecoder_transportBegin metadata with
  | StopIteration => ret true
  | Continue =>
      match ResponseDecoder_messageBegin metadata with
      | StopIteration => ret true
      | Continue =>
          match ResponseDecoder_messageEnd with
          | StopIteration => ret true
          | Continue =>
              _ <~ ResponseDecoder_transportEnd self ;;
              ret true
          end
      end
  end.

(** [ConnectionManager::ActiveTrans::upstreamData] *)
Definition upstreamData (self : nat) (metadata : MessageMetadata)
    : M ConnectionManager ResponseStatus :=
  try_catch
    (b <~ ResponseDecoder_onData self metadata ;;
     ret (if b : bool then Complete else MoreData))
    (λ e, match e with
          | AppExceptionThrown ex =>
              ActiveTrans_sendLocalReply self ex true ;;;
              ret Reset
          | EnvoyException what =>
              onError self what ;;;
              ret Reset
          | _ => throw e
          end).

(** Invocation of the closure stored in [filter_action_] on one filter.
    The closures of [transportBegin] and [messageBegin] read the metadata
    back from [filter_context_] at the time of the call. *)
Definition run_filter_action (self : nat) (filter : nat) : M ConnectionManager FilterStatus :=
  t <~ deref self ;;
  match filter_action_ t with
  | None => throw bad_function_call
  | Some TransportBegin =>
      match filter_context_ t with
      | Some metadata => filter_call filter TransportBegin (Some metadata)
      | None => throw bad_any_cast
      end
  | Some MessageBegin =>
      match filter_context_ t with
      | Some metadata => filter_call filter MessageBegin (Some metadata)
      | None => throw bad_any_cast
      end
  | Some MessageEnd => filter_call filter MessageEnd None
  | Some TransportEnd => filter_call filter TransportEnd None
  end.

(** The [for] loop of [applyDecoderFilters] from [entry] to the end of
    [decoder_filters_].  [Some status] is the early [return status];
    [None] means the loop ended, by exhaustion or by [break]. *)
Fixpoint walk (self : nat) (entries : list nat) : M ConnectionManager (option FilterStatus) :=
  match entries with
  | [] => ret None
  | entry :: rest =>
      status <~ run_filter_action self entry ;;
      t <~ deref self ;;
      if local_response_sent_ t then ret None
      else match status with
           | Continue => walk self rest
           | StopIteration => ret (Some status)
           end
  end.

(** Where the walk starts: the head of the chain for a null [filter],
    else the element after the entry of [filter]; a filter is named by
    the position of its entry in [decoder_filters_]. *)
Definition start_entries (filter : option nat) (t : ActiveTrans) : list nat :=
  match filter with
  | None => decoder_filters_ t
  | Some i => drop (S i) (decoder_filters_ t)
  end.

(** The tail of [applyDecoderFilters]: [filter_action_ = nullptr;
    filter_context_.reset(); return FilterStatus::Continue;] *)
Definition finish_walk (self : nat) : M ConnectionManager FilterStatus :=
  store self (set_filter_action None) ;;;
  store self (set_filter_context None) ;;;
  ret Continue.

(** [ConnectionManager::ActiveTrans::applyDecoderFilters] *)
Definition applyDecoderFilters (self : nat) (filter : option nat)
    : M ConnectionManager FilterStatus :=
  t <~ deref self ;;
  r <~ (if local_response_sent_ t then ret None
        else walk self (start_entries filter t)) ;;
  match r with
  | Some status => ret status
  | None => finish_walk self
  end.

(** Every filter of a stretch of the chain was invoked in turn, returned
    [Continue] and left [local_response_sent_] unset; the relation links
    the state before the stretch to the state after it. *)
Inductive passes (self : nat) : list nat → ConnectionManager → ConnectionManager → Prop :=
  | passes_nil cm : passes self [] cm cm
  | passes_cons entry pre cm cm1 cm2 t :
      run_filter_action self entry cm = (Ok Continue, cm1) →
      heap cm1 !! self = Some t →
      local_response_sent_ t = false →
      passes self pre cm1 cm2 →
      passes self (entry :: pre) cm cm2.

(** [ConnectionManager::ActiveTrans::transportBegin] *)
Definition ActiveTrans_transportBegin (self : nat) (metadata : MessageMetadata)
    : M ConnectionManager FilterStatus :=
  store self (set_filter_context (Some metadata)) ;;;
  store self (set_filter_action (Some TransportBegin)) ;;;
  applyDecoderFilters self None.

(** [ConnectionManager::ActiveTrans::messageBegin] *)
Definition ActiveTrans_messageBegin (self : nat) (metadata : MessageMetadata)
    : M ConnectionManager FilterStatus :=
  store self (set_metadata (Some metadata)) ;;;
  store self (set_filter_context (Some metadata)) ;;;
  store self (set_filter_action (Some MessageBegin)) ;;;
  applyDecoderFilters self None.

(** [ConnectionManager::ActiveTrans::messageEnd] *)
Definition ActiveTrans_messageEnd (self : nat) : M ConnectionManager FilterStatus :=
  store self (set_filter_action (Some MessageEnd)) ;;;
  applyDecoderFilters self None.

(** [ConnectionManager::ActiveTrans::transportEnd]; [finalizeRequest] is
    empty and the [ASSERT] is compiled out of release builds. *)
Definition ActiveTrans_transportEnd (self : nat) : M ConnectionManager FilterStatus :=
  modify (upd_stats (inc request)) ;;;
  store self (set_filter_action (Some TransportEnd)) ;;;
  applyDecoderFilters self None.

(** The four decoder events of a transaction; the two [End] events take
    no metadata. *)
Definition ActiveTrans_event (stage : Stage) (self : nat) (metadata : MessageMetadata)
    : M ConnectionManager FilterStatus :=
  match stage with
  | TransportBegin => ActiveTrans_transportBegin self metadata
  | MessageBegin => ActiveTrans_messageBegin self metadata
  | MessageEnd => ActiveTrans_messageEnd self
  | TransportEnd => ActiveTrans_transportEnd self
  end.

End Collaborators.

End ConnManager.

(** ** Part 7: per-worker transaction tables and the router (router_impl.h) *)

Module Router.
Import Metadata.

(** [std::shared_ptr<UpstreamRequest>]: [None] is [nullptr], [Some h] owns
    the request object with handle [h]. *)
Abbreviation UpstreamRequestPtr := (option nat) (only parsing).

(** [class TransactionInfoItem]; [active_trans_] is the handle of the
    transaction's callbacks object. *)
Record TransactionInfoItem := mkTransactionInfoItem {
  active_trans_ : nat;
  upstream_request_ : UpstreamRequestPtr;
  deleted_ : bool
}.

Definition toDelete (item : TransactionInfoItem) : TransactionInfoItem :=
  mkTransactionInfoItem (active_trans_ item) (upstream_request_ item) true.
Definition deleted (item : TransactionInfoItem) : bool := deleted_ item.

(** [struct ThreadLocalTransactionInfo].  [audit_timer_] is the duration in
    milliseconds for which the timer is armed, [None] when it is not;
    [transaction_timeout_] is in milliseconds. *)
Record ThreadLocalTransactionInfo := mkThreadLocalTransactionInfo {
  transaction_info_map_ : gmap string TransactionInfoItem;
  upstream_request_map_ : gmap string UpstreamRequestPtr;
  audit_timer_ : option Z;
  transaction_timeout_ : Z
}.

Definition upd_transaction_info_map
    (f : gmap string TransactionInfoItem → gmap string TransactionInfoItem)
    (tl : ThreadLocalTransactionInfo) :=
  mkThreadLocalTransactionInfo (f (transaction_info_map_ tl)) (upstream_request_map_ tl)
    (audit_timer_ tl) (transaction_timeout_ tl).
Definition upd_upstream_request_map
    (f : gmap string UpstreamRequestPtr → gmap string UpstreamRequestPtr)
    (tl : ThreadLocalTransactionInfo) :=
  mkThreadLocalTransactionInfo (transaction_info_map_ tl) (f (upstream_request_map_ tl))
    (audit_timer_ tl) (transaction_timeout_ tl).

(** One step of a sweep on the transaction map: [erase] on a tombstoned
    entry, nothing otherwise. *)
Definition erase_tombstoned (m : gmap string TransactionInfoItem)
    (it : string * TransactionInfoItem) : gmap string TransactionInfoItem :=
  if deleted it.2 then delete it.1 m else m.

(** [audit_timer_->enableTimer(d)] *)
Definition enableTimer (ms : Z) (tl : ThreadLocalTransactionInfo) :=
  mkThreadLocalTransactionInfo (transaction_info_map_ tl) (upstream_request_map_ tl)
    (Some ms) (transaction_timeout_ tl).


(** [std::chrono::seconds(2)] in milliseconds. *)
Definition audit_period : Z := 2000.

(** A count of [system_clock] ticks is a signed 64-bit integer ([rep] of
    [system_clock::duration]); the result of an operation on two of them
    is reduced to two's complement, as the compiled code does. *)
Definition wrap64 (z : Z) : Z := ((z + 2 ^ 63) mod 2 ^ 64 - 2 ^ 63)%Z.

(** An action on the second component of a pair of states. *)
Definition in_snd {S W A} (m : M W A) : M (S * W) A :=
  λ st, let '(r, w) := m st.2 in (r, (st.1, w)).

Section Audit.

(** State outside the worker's tables that a transaction reset touches
    (the owning connection manager and its dispatcher). *)
Variable World : Type.

(** [active_trans_->onReset()].  In this code base it is
    [ConnManager.onReset], which throws when the transaction is no longer
    indexed by its manager, and which defers the destruction of the
    transaction and so does not reach back into the worker's tables. *)
Variable onReset : nat → M World unit.

(** [active_trans_->streamInfo().startTime()] in ticks of
    [system_clock]. *)
Variable startTime : nat → Z.

(** The ticks of [system_clock] in one millisecond; the standard leaves
    the period of the clock to the implementation (a million for the
    nanosecond clock of libstdc++, a thousand for the microsecond clock of
    libc++). *)
Variable ticks_per_ms : Z.

Definition timestamp (item : TransactionInfoItem) : Z := startTime (active_trans_ item).
Definition resetTrans (item : TransactionInfoItem) : M World unit :=
  onReset (active_trans_ item).

(** [duration_cast<milliseconds>] of a [system_clock] duration; the cast
    truncates toward zero. *)
Definition duration_cast_ms (ticks : Z) : Z := Z.quot ticks ticks_per_ms.

(** [diff.count()], for [diff = duration_cast<milliseconds>(p1 -
    it->second->timestamp())]. *)
Definition diff_count (p1 : Z) (item : TransactionInfoItem) : Z :=
  duration_cast_ms (wrap64 (p1 - timestamp item)).

(** [diff.count() >= transaction_timeout_.count()] *)
Definition timed_out (p1 : Z) (timeout : Z) (item : TransactionInfoItem) : bool :=
  (timeout <=? diff_count p1 item)%Z.

(** The entries that a sweep over [its] resets, in the order of the
    sweep: those not tombstoned whose age has reached the timeout. *)
Definition reset_targets (p1 : Z) (timeout : Z) (its : list (string * TransactionInfoItem))
    : list (string * TransactionInfoItem) :=
  filter (λ it, Is_true (negb (deleted it.2) && timed_out p1 timeout it.2)) its.

(** [resetTrans] on each of [targets] in turn; the first call that
    throws ends the sequence. *)
Fixpoint reset_each (targets : list (string * TransactionInfoItem)) : M World unit :=
  match targets with
  | [] => ret tt
  | it :: rest => resetTrans it.2 ;;; reset_each rest
  end.

(** The sweep of [auditTimerAction] over the entries of the map;
    [erase(it++)] removes the visited entry only.  Nothing catches what
    [resetTrans] throws: the exception leaves the loop. *)
Fixpoint audit_loop (p1 : Z) (its : list (string * TransactionInfoItem))
    : M (ThreadLocalTransactionInfo * World) unit :=
  match its with
  | [] => ret tt
  | it :: rest =>
      if deleted it.2
      then
        modify (λ st, (upd_transaction_info_map (delete it.1) st.1, st.2)) ;;;
        audit_loop p1 rest
      else
        st <~ get ;;
        (if timed_out p1 (transaction_timeout_ st.1) it.2
         then in_snd (resetTrans it.2) else ret tt) ;;;
        audit_loop p1 rest
  end.

(** [ThreadLocalTransactionInfo::auditTimerAction]; [p1] is
    [dispatcher_.timeSource().systemTime()] in ticks of [system_clock].
    [enableTimer] is reached only when the loop returns. *)
Definition auditTimerAction (p1 : Z) : M (ThreadLocalTransactionInfo * World) unit :=
  st <~ get ;;
  audit_loop p1 (map_to_list (transaction_info_map_ st.1)) ;;;
  modify (λ st, (enableTimer audit_period st.1, st.2)).

End Audit.

(** [TransactionInfo]: the operations on the worker's slot. *)
Definition insertTransaction (transaction_id : string) (active_trans : nat)
    (upstream_request : UpstreamRequestPtr) : M ThreadLocalTransactionInfo unit :=
  modify (upd_transaction_info_map
            (emplace transaction_id (mkTransactionInfoItem active_trans upstream_request false))).

Definition deleteTransaction (transaction_id : string) : M ThreadLocalTransactionInfo unit :=
  tl <~ get ;;
  item <~ map_at (transaction_info_map_ tl) transaction_id ;;
  modify (upd_transaction_info_map <[transaction_id := toDelete item]>).

Definition getTransaction (transaction_id : string)
    : M ThreadLocalTransactionInfo TransactionInfoItem :=
  tl <~ get ;;
  map_at (transaction_info_map_ tl) transaction_id.

Definition insertUpstreamRequest (host : string) (upstream_request : UpstreamRequestPtr)
    : M ThreadLocalTransactionInfo unit :=
  modify (upd_upstream_request_map (emplace host upstream_request)).

(** [TransactionInfo::getUpstreamRequest]: [try { return map.at(host); }
    catch (std::out_of_range) { return nullptr; }] *)
Definition getUpstreamRequest (host : string)
    : M ThreadLocalTransactionInfo UpstreamRequestPtr :=
  try_catch
    (tl <~ get ;;
     map_at (upstream_request_map_ tl) host)
    (λ e, match e with
          | out_of_range => ret None
          | _ => throw e
          end).

Definition deleteUpstreamRequest (host : string) : M ThreadLocalTransactionInfo unit :=
  modify (upd_upstream_request_map (delete host)).

(** The router reads [metadata_->destination()] as a string view: it calls
    [empty()] on it and compares it with a [std::string].  An unset
    destination is the empty view. *)
Definition destination_view (metadata : MessageMetadata) : string :=
  default "" (destination metadata).

(** [Router::shouldSelectAnotherHost]; [host_address] is
    [host.address()->ip()->addressAsString()]. *)
Definition shouldSelectAnotherHost (metadata_ : MessageMetadata) (host_address : string)
    : bool :=
  if negb (ConnManager.empty (destination_view metadata_)) then false
  else negb (String.eqb host_address (destination_view metadata_)).

End Router.

(** ** Part 8: sample values for the examples *)

Module Samples.

(** An INVITE with nothing parsed yet. *)
Definition invite : MessageMetadata :=
  mkMessageMetadata Request Invite Invite None None None None None None None None "".

Definition with_destination (d : string) : MessageMetadata :=
  Metadata.setDestination d invite.

Definition with_branch (method : MethodType) (branch : string) : MessageMetadata :=
  mkMessageMetadata Request method method None None None None None None (Some branch)
                    None "".

(** A constructor that takes the transaction id and the metadata from the
    message and starts with an empty filter chain. *)
Definition make_ActiveTrans (metadata : MessageMetadata) : ConnManager.ActiveTrans :=
  ConnManager.mkActiveTrans (default "" (Metadata.transactionId metadata)) (Some metadata)
                            false None [] None None.

(** An encoder that appends the EP parameter to the raw message. *)
Definition encode (metadata : MessageMetadata) : string :=
  raw_msg_ metadata +:+ ";" +:+ "ep=" +:+ default "" (Metadata.EP metadata).

Definition no_stats : SipFilterStats := mkStats 0 0 0 0 0 0 0.

Definition connection (st : Network.State) : Network.Connection :=
  Network.mkConnection st "127.0.0.1" [].

(** A manager with the transaction [z9hG4bK-1] at address 0. *)
Definition manager (st : Network.State) (t : ConnManager.ActiveTrans)
    : ConnManager.ConnectionManager :=
  ConnManager.mkConnectionManager (connection st) no_stats {[ 0 := t ]} 1
    {[ "z9hG4bK-1" := 0 ]} [] ∅ invite 0.

(** The transaction [z9hG4bK-1] once an upstream response is expected. *)
Definition trans_awaiting (metadata : option MessageMetadata) : ConnManager.ActiveTrans :=
  ConnManager.mkActiveTrans "z9hG4bK-1" metadata false
    (Some (ConnManager.mkResponseDecoder None)) [] None None.

(** A decoder with nothing left to do when it is driven again. *)
Definition decoder_idle (continue_handling : bool)
    : M ConnManager.ConnectionManager unit := ret tt.

(** A manager that already knows the host of the cookie [abc]. *)
Definition manager_with_cookie : ConnManager.ConnectionManager :=
  ConnManager.mkConnectionManager (connection Network.Open) no_stats ∅ 0 ∅ []
    {[ "abc" := "10.0.0.5" ]} invite 0.

(** A response decoder whose [transportBegin] lets every message
    through. *)
Definition transportBegin_continue (metadata : MessageMetadata) : ConnManager.FilterStatus :=
  ConnManager.Continue.

(** A chain of three filters, 10, 11 and 12, of which 11 suspends the
    message; no filter touches the manager. *)
Definition filter_call (filter : nat) (stage : ConnManager.Stage)
    (metadata : option MessageMetadata)
    : M ConnManager.ConnectionManager ConnManager.FilterStatus :=
  ret (if Nat.eqb filter 11 then ConnManager.StopIteration else ConnManager.Continue).

(** The same chain with other filters: filter 11 answers the request of
    the transaction at address 0 with a final local reply ([end_stream]
    set) and then returns [status]; filter 12 suspends the message. *)
Definition replying_filter_call (status : ConnManager.FilterStatus) (filter : nat)
    (stage : ConnManager.Stage) (metadata : option MessageMetadata)
    : M ConnManager.ConnectionManager ConnManager.FilterStatus :=
  if Nat.eqb filter 11 then
    ConnManager.ActiveTrans_sendLocalReply encode 0
      (mkAppException ProtocolError "rejected") true ;;;
    ret status
  else ret (if Nat.eqb filter 12 then ConnManager.StopIteration else ConnManager.Continue).

Definition trans_in_chain : ConnManager.ActiveTrans :=
  ConnManager.mkActiveTrans "z9hG4bK-1" (Some invite) false None [10; 11; 12]
    (Some ConnManager.MessageEnd) None.

Definition ok200 : MessageMetadata :=
  mkMessageMetadata Response OtherMethod Invite None None None None None None
                    (Some "z9hG4bK-1") None "SIP/2.0 200 OK".

End Samples.

(** ** Part 9: ingress, the downstream reset, the route cache *)

Module ConnManagerMore.
Import Network Metadata ConnManager.

(** [Network::FilterStatus], the answer of a network read filter. *)
Inductive NetworkFilterStatus := NetworkContinue | NetworkStopIteration.

Section Ingress.

(** [decoder_->onData(request_buffer_, continue_handling)] *)
Variable decoder_onData : bool → M ConnectionManager unit.

(** [request_buffer_.move(data)].  The request buffer is read by the
    decoder alone; it is kept on the decoder's side. *)
Variable request_buffer_move : Buffer → M ConnectionManager unit.

(** [ConnectionManager::onData] *)
Definition onData (data : Buffer) (end_stream : bool)
    : M ConnectionManager NetworkFilterStatus :=
  request_buffer_move data ;;;
  dispatch decoder_onData ;;;
  (if end_stream then
     resetAllTrans false ;;;
     modify (upd_connection (call (close FlushWrite)))
   else ret tt) ;;;
  ret NetworkStopIteration.

End Ingress.

(** [ConnectionManager::ActiveTrans::resetDownstreamConnection] *)
Definition resetDownstreamConnection : M ConnectionManager unit :=
  modify (upd_connection (call (close NoFlush))).

Section Route.

(** The routes of the router configuration; [None] is the null
    [RouteConstSharedPtr]. *)
Variable Route : Type.

(** [parent_.config_.routerConfig().route(metadata)] *)
Variable routerConfig_route : MessageMetadata → option Route.

(** [ConnectionManager::ActiveTrans::route].  [cached_route_] is an
    [absl::optional<RouteConstSharedPtr>]: [None] when nothing is cached,
    [Some None] when the null route is.  The result is the route returned
    and the cache the call leaves. *)
Definition route (metadata_ : option MessageMetadata) (cached_route_ : option (option Route))
    : option Route * option (option Route) :=
  match cached_route_ with
  | Some r => (r, Some r)
  | None =>
      let r := match metadata_ with
               | Some metadata => routerConfig_route metadata
               | None => None
               end in
      (r, Some r)
  end.

End Route.

(** The manager after [newDecoderEventHandler] has been called for each
    of a sequence of decoded requests in turn, whether a call returned or
    threw. *)
Fixpoint decode_requests (make_ActiveTrans : MessageMetadata → ActiveTrans)
    (requests : list MessageMetadata) (cm : ConnectionManager) : ConnectionManager :=
  match requests with
  | [] => cm
  | metadata :: rest =>
      decode_requests make_ActiveTrans rest
        (newDecoderEventHandler make_ActiveTrans metadata cm).2
  end.

(** The host of the last pair of a response whose host is not empty. *)
Fixpoint last_host (resp : list (string * string)) : option string :=
  match resp with
  | [] => None
  | item :: rest =>
      match last_host rest with
      | Some host => Some host
      | None => if empty item.2 then None else Some item.2
      end
  end.

(** What [subscribe_item] does to the cookie map. *)
Definition subscribe_cookie (m : gmap string string) (item : string * string)
    : gmap string string :=
  emplace item.1 item.2 m.

End ConnManagerMore.

Module MoreSamples.

(** A worker's tables with one live transaction, a timeout of 500 ms and
    the audit timer armed. *)
Definition tables : Router.ThreadLocalTransactionInfo :=
  Router.mkThreadLocalTransactionInfo
    {[ "z9hG4bK-1" := Router.mkTransactionInfoItem 0 None false ]} ∅ (Some 2000%Z) 500%Z.

(** Bytes taken into the request buffer leave the manager as it is. *)
Definition buffer_move (data : string) : M ConnManager.ConnectionManager unit := ret tt.

(** Every transaction started at tick 0. *)
Definition startTime (active_trans : nat) : Z := 0%Z.

(** The nanosecond clock of libstdc++. *)
Definition ticks_per_ms : Z := 1000000%Z.

(** A reset that counts itself and always returns. *)
Definition count_reset (active_trans : nat) : M nat unit := modify S.

(** The sweep of a worker whose transactions all belong to one connection
    manager. *)
Definition audit (p1 : Z)
    : M (Router.ThreadLocalTransactionInfo * ConnManager.ConnectionManager) unit :=
  Router.auditTimerAction ConnManager.ConnectionManager ConnManager.onReset
    startTime ticks_per_ms p1.


End MoreSamples.

(** * Proofs *)

(** ** String views and [setTransactionId] *)

Module StringViewFacts.
Import StringView.

Lemma sapp_nil s : "" +:+ s = s.
Proof. reflexivity. Qed.

Lemma sapp_cons c s t : String c s +:+ t = String c (s +:+ t).
Proof. reflexivity. Qed.

(** Unfold string concatenation at its constructors. *)
Ltac sapp := rewrite ?sapp_cons, ?sapp_nil in *; simpl in *.

Lemma starts_with_app p s : starts_with p (p +:+ s) = true.
Proof.
  induction p as [|a p IH]; simpl; [done|].
  by rewrite Ascii.eqb_refl.
Qed.

Lemma starts_with_inv p s :
  starts_with p s = true → ∃ post, s = p +:+ post.
Proof.
  revert s; induction p as [|a p IH]; intros s H; simpl in *.
  - by exists s.
  - destruct s as [|b s]; [done|].
    destruct (Ascii.eqb a b) eqn:E; [|done].
    apply Ascii.eqb_eq in E as ->.
    destruct (IH _ H) as [post ->]. by exists post.
Qed.

Lemma occurs_at_0 needle s :
  occurs_at needle s 0 ↔ starts_with needle s = true.
Proof.
  split.
  - intros (pre & post & -> & Hlen).
    destruct pre; [|done]. apply (starts_with_app needle post).
  - intros [post ->]%starts_with_inv. by exists "", post.
Qed.

Lemma occurs_at_S needle c s i :
  occurs_at needle (String c s) (S i) ↔ occurs_at needle s i.
Proof.
  split.
  - intros (pre & post & Heq & Hlen).
    destruct pre as [|d pre]; [done|]. simpl in *.
    injection Heq as -> ->. exists pre, post. split; [done|lia].
  - intros (pre & post & -> & Hlen).
    exists (String c pre), post. simpl. split; [done|lia].
Qed.

Lemma occurs_at_nil needle i : occurs_at needle "" (S i) → False.
Proof. intros (pre & post & Heq & Hlen). by destruct pre. Qed.

(** [find] returns the offset of the first occurrence. *)
Lemma find_Some s needle i :
  find s needle = Some i →
  occurs_at needle s i ∧ ∀ j, j < i → ¬ occurs_at needle s j.
Proof.
  revert i; induction s as [|c s IH]; intros i; simpl.
  - destruct (starts_with needle "") eqn:E; [|done].
    intros [= <-]. split; [by apply occurs_at_0 | lia].
  - destruct (starts_with needle (String c s)) eqn:E.
    + intros [= <-]. split; [by apply occurs_at_0 | lia].
    + destruct (find s needle) as [i'|] eqn:F; [|done].
      intros [= <-]. destruct (IH i' eq_refl) as [Hocc Hmin].
      split; [by apply occurs_at_S|].
      intros [|j] Hj Hc.
      * apply occurs_at_0 in Hc. congruence.
      * apply occurs_at_S in Hc. apply (Hmin j); [lia|done].
Qed.

(** [find] returns [npos] only when there is no occurrence. *)
Lemma find_None s needle :
  find s needle = None → ∀ i, ¬ occurs_at needle s i.
Proof.
  induction s as [|c s IH]; simpl.
  - destruct (starts_with needle "") eqn:E; [done|].
    intros _ [|i] Hc; [apply occurs_at_0 in Hc; congruence|].
    by apply occurs_at_nil in Hc.
  - destruct (starts_with needle (String c s)) eqn:E; [done|].
    destruct (find s needle) eqn:F; [done|].
    intros _ [|i] Hc; [apply occurs_at_0 in Hc; congruence|].
    apply occurs_at_S in Hc. by apply (IH eq_refl i).
Qed.

Lemma drop_app_length pre s : drop (String.length pre) (pre +:+ s) = s.
Proof. induction pre; simpl; [by destruct s|done]. Qed.

Lemma take_app_length s post : take (String.length s) (s +:+ post) = s.
Proof. induction s as [|c s IH]; simpl; [done|by f_equal]. Qed.

Lemma take_all s : take (String.length s) s = s.
Proof. induction s as [|c s IH]; simpl; [done|by f_equal]. Qed.

Lemma sapp_length s t : String.length (s +:+ t) = String.length s + String.length t.
Proof. induction s; sapp; [done|lia]. Qed.

Lemma sapp_nil_r s : s +:+ "" = s.
Proof. induction s as [|c s IH]; sapp; [done|by f_equal]. Qed.

Lemma sapp_assoc s t u : (s +:+ t) +:+ u = s +:+ t +:+ u.
Proof. induction s as [|c s IH]; sapp; [done|by f_equal]. Qed.

(** Searching from offset [length pre] skips [pre]. *)
Lemma find_first_of_skip pre s chars :
  find_first_of (pre +:+ s) chars (String.length pre)
  = option_map (λ e, String.length pre + e) (find_first_of s chars 0).
Proof.
  induction pre as [|c pre IH]; sapp.
  - by destruct (find_first_of s chars 0).
  - rewrite IH. by destruct (find_first_of s chars 0).
Qed.

(** The result of [find_first_of] splits the view at the first stop
    character. *)
Lemma find_first_of_Some s chars e :
  find_first_of s chars 0 = Some e →
  ∃ tid c post, s = tid +:+ String c post ∧ String.length tid = e
                ∧ none_of chars tid = true ∧ char_in c chars = true.
Proof.
  revert e; induction s as [|c s IH]; intros e; simpl; [done|].
  destruct (char_in c chars) eqn:E.
  - intros [= <-]. by exists "", c, s.
  - destruct (find_first_of s chars 0) as [e'|]; [|done].
    intros [= <-]. destruct (IH e' eq_refl) as (tid & d & post & -> & <- & Hn & Hd).
    exists (String c tid), d, post. simpl. by rewrite E, Hn.
Qed.

Lemma find_first_of_None s chars :
  find_first_of s chars 0 = None → none_of chars s = true.
Proof.
  induction s as [|c s IH]; simpl; [done|].
  destruct (char_in c chars); [done|].
  destruct (find_first_of s chars 0); [done|]. intros _. by apply IH.
Qed.

End StringViewFacts.

Module MetadataFacts.
Import StringView StringViewFacts Metadata.

(** The token cut out after an occurrence of the key: up to the first
    [;] or [>], or to the end of the header. *)
Lemma substr_token pre key rest :
  ∃ tid post,
    rest = tid +:+ post ∧ none_of ";>" tid = true ∧ stops_at ";>" post
    ∧ let start_index := String.length pre + String.length key in
      substr (pre +:+ key +:+ rest) start_index
             (end_index (pre +:+ key +:+ rest) start_index - start_index) = tid.
Proof.
  set (start_index := String.length pre + String.length key).
  assert (Hskip : ∀ n, substr (pre +:+ key +:+ rest) start_index n = take n rest).
  { intros n. unfold substr, start_index.
    rewrite <- sapp_assoc, <- sapp_length. by rewrite drop_app_length. }
  assert (Hfind : find_first_of (pre +:+ key +:+ rest) ";>" start_index
                  = option_map (λ e, start_index + e) (find_first_of rest ";>" 0)).
  { unfold start_index. rewrite <- sapp_assoc, <- sapp_length.
    apply find_first_of_skip. }
  unfold end_index. fold start_index. rewrite Hfind.
  destruct (find_first_of rest ";>" 0) as [e|] eqn:F; simpl.
  - apply find_first_of_Some in F as (tid & c & post & -> & <- & Hn & Hc).
    exists tid, (String c post). repeat split; [done| |].
    + right. by exists c, post.
    + rewrite Hskip. replace (_ - _) with (String.length tid) by lia.
      apply take_app_length.
  - apply find_first_of_None in F.
    exists rest, "". repeat split; [|done|by left|].
    + by rewrite sapp_nil_r.
    + rewrite Hskip.
      replace (_ - _) with (String.length rest).
      * apply take_all.
      * rewrite !sapp_length. unfold start_index. lia.
Qed.

(** The offset handed to [substr] never exceeds the size of the view. *)
Lemma setTransactionId_start_in_range data i :
  find data branch_key = Some i →
  (i + String.length branch_key ≤ String.length data)%nat.
Proof.
  intros [(pre & post & -> & <-) _]%find_Some.
  rewrite !sapp_length. lia.
Qed.

(** C8.  For every header [data], [setTransactionId] either finds no
    ["branch="] anywhere in [data] and leaves the metadata as it was, or
    [data] splits as [pre ++ "branch=" ++ tid ++ post] at the first
    occurrence of ["branch="], where [tid] holds neither [;] nor [>] and
    [post] is empty or begins with [;] or [>], and the transaction id
    becomes exactly [tid] (every other field is kept). *)
Theorem setTransactionId_spec (data : string) (m : MessageMetadata) :
  ((∀ i, ¬ occurs_at "branch=" data i) ∧ setTransactionId data m = m)
  ∨ (∃ pre tid post,
       data = pre +:+ "branch=" +:+ tid +:+ post
       ∧ (∀ j, j < String.length pre → ¬ occurs_at "branch=" data j)
       ∧ none_of ";>" tid = true
       ∧ stops_at ";>" post
       ∧ setTransactionId data m = with_transaction_id (Some tid) m
       ∧ transactionId (setTransactionId data m) = Some tid).
Proof.
  unfold setTransactionId.
  destruct (find data branch_key) as [i|] eqn:F.
  - right. apply find_Some in F as [(pre & rest & Hdata & <-) Hmin].
    destruct (substr_token pre branch_key rest) as (tid & post & Hrest & Hn & Hs & Hsub).
    exists pre, tid, post. cbv zeta in Hsub. rewrite <- Hdata in Hsub.
    rewrite Hsub. subst rest. by repeat split.
  - left. split; [|done]. by apply find_None.
Qed.

Example setTransactionId_in_uri :
  transactionId (setTransactionId "Via: <sip:d;branch=z9hG4bK-2>;lr" Samples.invite)
  = Some "z9hG4bK-2".
Proof. reflexivity. Qed.

Example setTransactionId_to_end :
  transactionId (setTransactionId "Via: SIP/2.0/TCP d;branch=z9hG4bK-3" Samples.invite)
  = Some "z9hG4bK-3".
Proof. reflexivity. Qed.

Example setTransactionId_no_branch :
  setTransactionId "Via: SIP/2.0/TCP d;rport"
    (Samples.with_branch Invite "z9hG4bK-1")
  = Samples.with_branch Invite "z9hG4bK-1".
Proof. reflexivity. Qed.

Example setTransactionId_via :
  transactionId (setTransactionId "Via: SIP/2.0/TCP d;branch=z9hG4bK-1;rport"
                   (mkMessageMetadata Request Invite Invite None None None None None None
                      None None ""))
  = Some "z9hG4bK-1".
Proof. reflexivity. Qed.

End MetadataFacts.

(** ** Running the monad *)

Lemma bind_Ok {S A B} (m : M S A) (k : A → M S B) s a s' :
  m s = (Ok a, s') → bind m k s = k a s'.
Proof. unfold bind. by intros ->. Qed.

Lemma bind_Throw {S A B} (m : M S A) (k : A → M S B) s e s' :
  m s = (Throw e, s') → bind m k s = (Throw e, s').
Proof. unfold bind. by intros ->. Qed.

(** ** The router and the per-worker tables *)

Module RouterFacts.
Import Router.

Lemma empty_true s : ConnManager.empty s = true ↔ s = "".
Proof. destruct s; simpl; split; congruence. Qed.

(** With a destination set, no host is ever rejected. *)
Lemma shouldSelectAnotherHost_destination_set metadata host_address :
  destination_view metadata ≠ "" →
  shouldSelectAnotherHost metadata host_address = false.
Proof.
  intros Hd. unfold shouldSelectAnotherHost.
  destruct (ConnManager.empty (destination_view metadata)) eqn:E; [|done].
  by apply empty_true in E.
Qed.

(** Without a destination, every host with a non-empty address is
    rejected. *)
Lemma shouldSelectAnotherHost_destination_unset metadata host_address :
  destination_view metadata = "" →
  shouldSelectAnotherHost metadata host_address = negb (String.eqb host_address "").
Proof. intros Hd. unfold shouldSelectAnotherHost. by rewrite Hd. Qed.

(** C1.  With the destination set to 10.0.0.7, the host 10.0.0.5 offered by
    the load balancer is not rejected: [shouldSelectAnotherHost] answers
    [false] although the address differs from the destination. *)
Theorem shouldSelectAnotherHost_accepts_other_host :
  shouldSelectAnotherHost (Samples.with_destination "10.0.0.7") "10.0.0.5" = false.
Proof. reflexivity. Qed.

(** [getUpstreamRequest] never throws and leaves the tables alone. *)
Lemma getUpstreamRequest_total host tl :
  getUpstreamRequest host tl
  = (Ok (default None (upstream_request_map_ tl !! host)), tl).
Proof.
  unfold getUpstreamRequest, try_catch, bind, get, map_at.
  by destruct (upstream_request_map_ tl !! host).
Qed.

(** C10.  [getUpstreamRequest host] returns [nullptr] when [host] has no
    entry in [upstream_request_map_] (the [out_of_range] of [at] is caught,
    the call itself returns normally), returns the stored pointer when
    there is an entry, and in both cases hands back the worker's tables
    unchanged. *)
Theorem getUpstreamRequest_spec (host : string) (tl : ThreadLocalTransactionInfo) :
  (upstream_request_map_ tl !! host = None →
     getUpstreamRequest host tl = (Ok None, tl))
  ∧ (∀ p, upstream_request_map_ tl !! host = Some p →
       getUpstreamRequest host tl = (Ok p, tl)).
Proof.
  rewrite getUpstreamRequest_total. split.
  - by intros ->.
  - by intros p ->.
Qed.

Lemma getUpstreamRequest_after_insert host p tl :
  upstream_request_map_ tl !! host = None →
  (insertUpstreamRequest host p ;;; getUpstreamRequest host) tl
  = (Ok p, upd_upstream_request_map (emplace host p) tl).
Proof.
  intros Hnone. unfold bind, insertUpstreamRequest, modify.
  rewrite getUpstreamRequest_total. simpl.
  unfold emplace. rewrite Hnone. by rewrite lookup_insert_eq.
Qed.

Lemma getUpstreamRequest_after_delete host tl :
  (deleteUpstreamRequest host ;;; getUpstreamRequest host) tl
  = (Ok None, upd_upstream_request_map (delete host) tl).
Proof.
  unfold bind, deleteUpstreamRequest, modify.
  rewrite getUpstreamRequest_total. simpl. by rewrite lookup_delete_eq.
Qed.

Section AuditFacts.
Context {World : Type} (onReset : nat → M World unit) (startTime : nat → Z)
        (ticks_per_ms : Z).
Local Open Scope list_scope.

Local Abbreviation loop := (audit_loop World onReset startTime ticks_per_ms).
Local Abbreviation audit := (auditTimerAction World onReset startTime ticks_per_ms).
Local Abbreviation targets_of := (reset_targets startTime ticks_per_ms).
Local Abbreviation resets := (reset_each World onReset).
Local Abbreviation reset := (resetTrans World onReset).
Local Abbreviation is_timed_out := (timed_out startTime ticks_per_ms).

Lemma reset_each_cons_Ok it rest w w' :
  resets (it :: rest) w = (Ok tt, w')
  ↔ ∃ w1, reset it.2 w = (Ok tt, w1) ∧ resets rest w1 = (Ok tt, w').
Proof.
  cbn [reset_each]. unfold bind.
  destruct (reset it.2 w) as [[[]|e] w1]; split.
  - intros H. by exists w1.
  - by intros (w2 & [= ->] & H).
  - done.
  - by intros (w2 & [=] & _).
Qed.

Lemma reset_targets_tombstoned p1 timeout it its :
  deleted it.2 = true →
  targets_of p1 timeout (it :: its) = targets_of p1 timeout its.
Proof. intros Hd. unfold reset_targets. rewrite filter_cons, Hd. done. Qed.

Lemma reset_targets_young p1 timeout it its :
  deleted it.2 = false → is_timed_out p1 timeout it.2 = false →
  targets_of p1 timeout (it :: its) = targets_of p1 timeout its.
Proof. intros Hd Ht. unfold reset_targets. rewrite filter_cons, Hd, Ht. done. Qed.

Lemma reset_targets_timed_out p1 timeout it its :
  deleted it.2 = false → is_timed_out p1 timeout it.2 = true →
  targets_of p1 timeout (it :: its) = it :: targets_of p1 timeout its.
Proof. intros Hd Ht. unfold reset_targets. rewrite filter_cons, Hd, Ht. done. Qed.

Lemma erase_tombstoned_true m it :
  deleted it.2 = true → erase_tombstoned m it = delete it.1 m.
Proof. unfold erase_tombstoned. by intros ->. Qed.

Lemma erase_tombstoned_false m it :
  deleted it.2 = false → erase_tombstoned m it = m.
Proof. unfold erase_tombstoned. by intros ->. Qed.

Local Ltac same_tables H :=
  unfold upd_transaction_info_map;
  cbn [transaction_info_map_ upstream_request_map_ audit_timer_ transaction_timeout_ foldl];
  rewrite H by done; reflexivity.

(** A sweep in which every reset returns: the tombstoned entries are
    erased and the world is the one the resets leave. *)
Lemma audit_loop_Ok p1 its tl w w' :
  resets (targets_of p1 (transaction_timeout_ tl) its) w = (Ok tt, w') →
  loop p1 its (tl, w)
  = (Ok tt, (upd_transaction_info_map (λ m, foldl erase_tombstoned m its) tl, w')).
Proof.
  revert tl w; induction its as [|it its IH]; intros tl w Hr.
  - cbn in Hr. injection Hr as <-. by destruct tl.
  - cbn [audit_loop]. destruct (deleted it.2) eqn:Hd.
    + rewrite reset_targets_tombstoned in Hr by done.
      unfold bind at 1, modify. cbn [fst snd].
      rewrite (IH (upd_transaction_info_map (delete it.1) tl) w) by exact Hr.
      same_tables erase_tombstoned_true.
    + unfold bind at 1, get. cbn [fst snd].
      destruct (is_timed_out p1 (transaction_timeout_ tl) it.2) eqn:Ht.
      * rewrite reset_targets_timed_out in Hr by done.
        apply reset_each_cons_Ok in Hr as (w1 & Hr1 & Hr).
        unfold bind at 1, in_snd. cbn [fst snd]. rewrite Hr1.
        rewrite (IH _ _ Hr). same_tables erase_tombstoned_false.
      * rewrite reset_targets_young in Hr by done.
        unfold bind at 1, ret at 1.
        rewrite (IH _ _ Hr). same_tables erase_tombstoned_false.
Qed.



Lemma auditTimerAction_Ok p1 tl w w' :
  resets (targets_of p1 (transaction_timeout_ tl) (map_to_list (transaction_info_map_ tl))) w
  = (Ok tt, w') →
  audit p1 (tl, w)
  = (Ok tt,
     (enableTimer audit_period
        (upd_transaction_info_map
           (λ m, foldl erase_tombstoned m (map_to_list (transaction_info_map_ tl))) tl),
      w')).
Proof.
  intros Hr. unfold auditTimerAction, bind at 1, get. cbn [fst snd].
  unfold bind. by rewrite (audit_loop_Ok _ _ _ _ _ Hr).
Qed.


Lemma erase_tombstoned_absent its m k :
  m !! k = None → foldl erase_tombstoned m its !! k = None.
Proof.
  revert m; induction its as [|it its IH]; intros m Hk; simpl; [done|].
  apply IH. unfold erase_tombstoned. destruct (deleted it.2); [|done].
  rewrite lookup_delete. by case_decide.
Qed.

Lemma erase_tombstoned_hit its m k item :
  (k, item) ∈ its → deleted item = true →
  foldl erase_tombstoned m its !! k = None.
Proof.
  revert m; induction its as [|it its IH]; intros m Hin Hdel; [by inversion Hin|].
  simpl. apply elem_of_cons in Hin as [<-|Hin].
  - apply erase_tombstoned_absent. unfold erase_tombstoned. simpl.
    rewrite Hdel. apply lookup_delete_eq.
  - by apply IH.
Qed.

Lemma erase_tombstoned_miss its m k :
  (∀ item, (k, item) ∈ its → deleted item = false) →
  foldl erase_tombstoned m its !! k = m !! k.
Proof.
  revert m; induction its as [|it its IH]; intros m Hk; simpl; [done|].
  rewrite IH by (intros item Hin; apply Hk; by right).
  unfold erase_tombstoned. destruct (deleted it.2) eqn:E; [|done].
  apply lookup_delete_ne. intros <-.
  specialize (Hk it.2). rewrite Hk in E; [done|].
  destruct it; by left.
Qed.

(** A sweep keeps exactly the entries that are not tombstoned. *)
Lemma erase_tombstoned_map_to_list (m : gmap string TransactionInfoItem) k :
  foldl erase_tombstoned m (map_to_list m) !! k
  = item ← m !! k; if deleted item then None else Some item.
Proof.
  destruct (m !! k) as [item|] eqn:Hk; simpl.
  - destruct (deleted item) eqn:Hd.
    + eapply erase_tombstoned_hit; [|done]. by apply elem_of_map_to_list.
    + rewrite erase_tombstoned_miss, Hk; [done|].
      intros item' Hin%elem_of_map_to_list. congruence.
  - by apply erase_tombstoned_absent.
Qed.





Lemma wrap64_in_range z : (- 2 ^ 63 ≤ z < 2 ^ 63)%Z → wrap64 z = z.
Proof. intros Hz. unfold wrap64. rewrite Z.mod_small; lia. Qed.

(** For a positive timeout and a tick difference that fits in 64 bits,
    comparing the truncated millisecond count is the same as comparing
    the exact age. *)
Lemma timed_out_exact p1 timeout item :
  (0 < ticks_per_ms)%Z → (0 < timeout)%Z →
  (- 2 ^ 63 ≤ p1 - timestamp startTime item < 2 ^ 63)%Z →
  timed_out startTime ticks_per_ms p1 timeout item = true
  ↔ (timeout * ticks_per_ms ≤ p1 - timestamp startTime item)%Z.
Proof.
  intros Hticks Hpos Hrange. unfold timed_out, diff_count, duration_cast_ms.
  rewrite wrap64_in_range by done. rewrite Z.leb_le.
  set (d := (p1 - timestamp startTime item)%Z).
  destruct (Z.le_gt_cases 0 d) as [Hd|Hd].
  - rewrite Z.quot_div_nonneg by lia.
    split; intros H.
    + pose proof (Z.mul_div_le d ticks_per_ms ltac:(lia)). nia.
    + apply Z.div_le_lower_bound; lia.
  - split; intros H; [|nia].
    pose proof (Z.quot_opp_l d ticks_per_ms ltac:(lia)) as Hq.
    pose proof (Z.quot_pos (- d) ticks_per_ms ltac:(lia) ltac:(lia)). lia.
Qed.

End AuditFacts.


End RouterFacts.

(** ** The connection manager *)

Module ConnManagerFacts.
Import Network Metadata ConnManager.
Local Open Scope list_scope.

(** *** Access through addresses *)

Lemma deref_Some p t cm :
  heap cm !! p = Some t → deref p cm = (Ok t, cm).
Proof. unfold deref, bind, get. by intros ->. Qed.

Lemma store_Some p f t cm :
  heap cm !! p = Some t →
  store p f cm = (Ok tt, upd_heap <[p := f t]> cm).
Proof. intros H. unfold store. by rewrite (bind_Ok _ _ _ _ _ (deref_Some _ _ _ H)). Qed.

(** *** [resetAllTrans] *)

Lemma onReset_indexed p t q cm :
  heap cm !! p = Some t →
  transactions_ cm !! transactionId_of t = Some q →
  onReset p cm
  = (Ok tt, upd_transactions (delete (transactionId_of t))
              (upd_deferred_delete (λ l, l ++ [q]) cm)).
Proof.
  intros Hp Hq. unfold onReset, doDeferredTransDestroy.
  rewrite (bind_Ok _ _ _ _ _ (deref_Some _ _ _ Hp)).
  unfold bind, get, map_at. by rewrite Hq.
Qed.

Lemma resetAllTrans_loop_spec local_reset its cm :
  NoDup its.*1 →
  (∀ k p, (k, p) ∈ its →
     transactions_ cm !! k = Some p ∧ transactionId_of <$> heap cm !! p = Some k) →
  resetAllTrans_loop local_reset its cm
  = (Ok tt,
     mkConnectionManager (connection cm)
       (Nat.iter (length its) (inc (reset_counter local_reset)) (stats_ cm))
       (heap cm) (next_addr cm)
       (foldl (λ m it, delete it.1 m) (transactions_ cm) its)
       (deferred_delete cm ++ its.*2)
       (p_cookie_ip_map_ cm) (decoder_metadata cm) (local_reply_calls cm)).
Proof.
  revert cm; induction its as [|[k p] its IH]; intros cm Hnd Hin.
  - simpl. rewrite app_nil_r. by destruct cm.
  - rewrite fmap_cons in Hnd. apply NoDup_cons in Hnd as [Hk Hnd]. simpl in Hk.
    destruct (Hin k p) as [Hkp Hheap]; [by left|].
    destruct (heap cm !! p) as [t|] eqn:Hp; [|done].
    injection Hheap as Hid.
    cbn [resetAllTrans_loop]. unfold bind at 1, modify at 1. cbn [snd].
    erewrite bind_Ok.
    2:{ apply (onReset_indexed p t p); [done|]. by rewrite Hid. }
    rewrite IH; [|done|].
    + rewrite Hid. unfold upd_transactions, upd_deferred_delete, upd_stats.
      cbn [connection stats_ heap next_addr transactions_ deferred_delete
           p_cookie_ip_map_ decoder_metadata local_reply_calls].
      rewrite fmap_cons, <- app_assoc. cbn [length foldl fst snd app].
      by rewrite Nat.iter_succ_r.
    + intros k' p' Hin'. destruct (Hin k' p') as [Hk' Hp']; [by right|].
      unfold upd_transactions, upd_deferred_delete, upd_stats.
      cbn [heap transactions_]. rewrite Hid. split; [|done].
      rewrite lookup_delete_ne; [done|].
      intros ->. apply Hk. apply list_elem_of_fmap. by exists (k', p').
Qed.

Lemma delete_all_keys {V} (m : gmap string V) :
  foldl (λ m (it : string * V), delete it.1 m) m (map_to_list m) = ∅.
Proof.
  assert (Habs : ∀ (its : list (string * V)) (m' : gmap string V) k,
             m' !! k = None → foldl (λ m it, delete it.1 m) m' its !! k = None).
  { induction its as [|it its IH]; intros m' k Hk; simpl; [done|].
    apply IH. rewrite lookup_delete. by case_decide. }
  assert (Hhit : ∀ (its : list (string * V)) (m' : gmap string V) k v,
             (k, v) ∈ its → foldl (λ m it, delete it.1 m) m' its !! k = None).
  { induction its as [|it its IH]; intros m' k v Hin; [by inversion Hin|].
    simpl. apply elem_of_cons in Hin as [<-|Hin]; [|by eapply IH].
    apply Habs. apply lookup_delete_eq. }
  apply map_eq. intros k. rewrite lookup_empty.
  destruct (m !! k) as [v|] eqn:Hk.
  - eapply Hhit. by apply elem_of_map_to_list.
  - by apply Habs.
Qed.

Lemma resetAllTrans_spec local_reset cm :
  indexed_by_id cm →
  resetAllTrans local_reset cm
  = (Ok tt,
     mkConnectionManager (connection cm)
       (Nat.iter (size (transactions_ cm)) (inc (reset_counter local_reset)) (stats_ cm))
       (heap cm) (next_addr cm) ∅
       (deferred_delete cm ++ (map_to_list (transactions_ cm)).*2)
       (p_cookie_ip_map_ cm) (decoder_metadata cm) (local_reply_calls cm)).
Proof.
  intros Hwf. unfold resetAllTrans, bind, get.
  rewrite resetAllTrans_loop_spec.
  - by rewrite delete_all_keys, length_map_to_list.
  - apply NoDup_fst_map_to_list.
  - intros k p Hin%elem_of_map_to_list. split; [done|]. by apply Hwf.
Qed.

Lemma resetAllTrans_empty local_reset cm :
  transactions_ cm = ∅ → resetAllTrans local_reset cm = (Ok tt, cm).
Proof.
  intros He. unfold resetAllTrans, bind, get. rewrite He, map_to_list_empty. done.
Qed.

Lemma iter_inc_local n s :
  cx_destroy_local_with_active_rq_ (Nat.iter n (inc cx_destroy_local_with_active_rq) s)
  = n + cx_destroy_local_with_active_rq_ s
  ∧ cx_destroy_remote_with_active_rq_ (Nat.iter n (inc cx_destroy_local_with_active_rq) s)
    = cx_destroy_remote_with_active_rq_ s.
Proof. induction n as [|n [IH1 IH2]]; simpl; [done|]. rewrite IH1, IH2. done. Qed.

Lemma iter_inc_remote n s :
  cx_destroy_remote_with_active_rq_ (Nat.iter n (inc cx_destroy_remote_with_active_rq) s)
  = n + cx_destroy_remote_with_active_rq_ s
  ∧ cx_destroy_local_with_active_rq_ (Nat.iter n (inc cx_destroy_remote_with_active_rq) s)
    = cx_destroy_local_with_active_rq_ s.
Proof. induction n as [|n [IH1 IH2]]; simpl; [done|]. rewrite IH1, IH2. done. Qed.

(** C4.  On a manager whose transactions are indexed under their own ids,
    [resetAllTrans] returns normally; it bumps the counter of the reset
    origin once per indexed transaction and leaves the other one alone,
    hands every indexed transaction to the deferred-delete list once, and
    empties [transactions_].  A second call right after it, with either
    flag, changes nothing, so two calls in a row leave the same state
    (and the same counters) as one. *)
Theorem resetAllTrans_twice (local_reset local_reset' : bool) (cm : ConnectionManager) :
  indexed_by_id cm →
  ∃ cm1,
    resetAllTrans local_reset cm = (Ok tt, cm1)
    ∧ transactions_ cm1 = ∅
    ∧ deferred_delete cm1 = deferred_delete cm ++ (map_to_list (transactions_ cm)).*2
    ∧ cx_destroy_local_with_active_rq_ (stats_ cm1)
      = (if local_reset then size (transactions_ cm) else 0)
        + cx_destroy_local_with_active_rq_ (stats_ cm)
    ∧ cx_destroy_remote_with_active_rq_ (stats_ cm1)
      = (if local_reset then 0 else size (transactions_ cm))
        + cx_destroy_remote_with_active_rq_ (stats_ cm)
    ∧ resetAllTrans local_reset' cm1 = (Ok tt, cm1)
    ∧ (resetAllTrans local_reset ;;; resetAllTrans local_reset') cm
      = resetAllTrans local_reset cm.
Proof.
  intros Hwf. eexists. split; [by apply resetAllTrans_spec|].
  split; [done|]. split; [done|].
  assert (H2 : ∀ cm1, transactions_ cm1 = ∅ →
                resetAllTrans local_reset' cm1 = (Ok tt, cm1))
    by (intros; by apply resetAllTrans_empty).
  cbn [stats_]. split; [|split; [|split]].
  - destruct local_reset; cbn [reset_counter].
    + apply iter_inc_local.
    + apply iter_inc_remote.
  - destruct local_reset; cbn [reset_counter].
    + apply iter_inc_local.
    + apply iter_inc_remote.
  - by apply H2.
  - unfold bind at 1. rewrite resetAllTrans_spec by done. by apply H2.
Qed.

Lemma sample_manager_indexed st :
  indexed_by_id (Samples.manager st (Samples.trans_awaiting None)).
Proof. apply map_Forall_singleton. reflexivity. Qed.

Lemma resetAllTrans_twice_witness :
  ∃ cm1,
    resetAllTrans false (Samples.manager Open (Samples.trans_awaiting None)) = (Ok tt, cm1)
    ∧ transactions_ cm1 = ∅
    ∧ deferred_delete cm1 = [0]
    ∧ cx_destroy_remote_with_active_rq_ (stats_ cm1) = 1.
Proof.
  destruct (resetAllTrans_twice false false
              (Samples.manager Open (Samples.trans_awaiting None))
              (sample_manager_indexed Open))
    as (cm1 & H1 & H2 & H3 & _ & H5 & _).
  exists cm1. repeat split; [done|done| |].
  - rewrite H3. simpl. by rewrite map_to_list_singleton.
  - rewrite H5. simpl. by rewrite map_size_singleton.
Defined.

(** *** [newDecoderEventHandler] *)

Section NewDecoderEventHandler.
Variable make_ActiveTrans : MessageMetadata → ActiveTrans.

Lemma newDecoderEventHandler_ack_indexed metadata k p cm :
  transactionId metadata = Some k →
  methodType metadata = Ack →
  transactions_ cm !! k = Some p →
  newDecoderEventHandler make_ActiveTrans metadata cm = (Ok p, cm).
Proof.
  intros Hk Hack Hp. unfold newDecoderEventHandler, bind, value, get.
  rewrite Hk. simpl. rewrite decide_True by done. by rewrite Hp.
Qed.

Lemma newDecoderEventHandler_other_indexed metadata k p cm :
  transactionId metadata = Some k →
  methodType metadata ≠ Ack →
  transactions_ cm !! k = Some p →
  newDecoderEventHandler make_ActiveTrans metadata cm
  = (Ok p, upd_heap (delete (next_addr cm))
             (upd_heap <[next_addr cm := make_ActiveTrans metadata]>
                (upd_next_addr S cm))).
Proof.
  intros Hk Hack Hp. unfold newDecoderEventHandler, bind, value, get.
  rewrite Hk. simpl. rewrite decide_False by done. rewrite Hp.
  unfold modify, map_at. simpl. by rewrite Hp.
Qed.

Lemma newDecoderEventHandler_fresh metadata k cm :
  transactionId metadata = Some k →
  transactions_ cm !! k = None →
  newDecoderEventHandler make_ActiveTrans metadata cm
  = (Ok (next_addr cm),
     upd_transactions <[k := next_addr cm]>
       (upd_heap <[next_addr cm := make_ActiveTrans metadata]>
          (upd_next_addr S cm))).
Proof.
  intros Hk Hp. unfold newDecoderEventHandler, bind, value, get.
  rewrite Hk. simpl. rewrite Hp.
  replace (if decide (methodType metadata = Ack) then None else None)
    with (@None nat) by (by case_decide).
  unfold modify, map_at. simpl. by rewrite lookup_insert_eq.
Qed.

(** Whatever the method, a request whose id is indexed gets the indexed
    transaction back and the index is left as it was. *)
Lemma newDecoderEventHandler_indexed metadata k p cm :
  transactionId metadata = Some k →
  transactions_ cm !! k = Some p →
  ∃ cm', newDecoderEventHandler make_ActiveTrans metadata cm = (Ok p, cm')
         ∧ transactions_ cm' = transactions_ cm.
Proof.
  intros Hk Hp. destruct (decide (methodType metadata = Ack)) as [Hack|Hack].
  - exists cm. by rewrite (newDecoderEventHandler_ack_indexed _ k p).
  - eexists. by rewrite (newDecoderEventHandler_other_indexed _ k p).
Qed.

(** C2, as the code has it.  The first of two requests with the same
    transaction id [k] gets back the ActiveTrans [p] that is indexed under
    [k] once the call returns.  Whenever [p] is still indexed under [k]
    when the second request is decoded, in particular right after the
    first, the second request gets the same [p] back and the index is left
    as it is.  When [k] was already indexed before the first request, the
    index is left alone: an ACK then touches nothing at all, while any
    other method still constructs a new ActiveTrans, which [emplace] does
    not take and which is freed again.  When [k] was not indexed, a new
    ActiveTrans is constructed, indexed and returned. *)
Theorem newDecoderEventHandler_shares
    (metadata1 metadata2 : MessageMetadata) (k : string) (cm : ConnectionManager) :
  transactionId metadata1 = Some k →
  transactionId metadata2 = Some k →
  ∃ p cm1,
    newDecoderEventHandler make_ActiveTrans metadata1 cm = (Ok p, cm1)
    ∧ transactions_ cm1 !! k = Some p
    ∧ (∀ cm1', transactions_ cm1' !! k = Some p →
         ∃ cm2, newDecoderEventHandler make_ActiveTrans metadata2 cm1' = (Ok p, cm2)
                ∧ transactions_ cm2 = transactions_ cm1')
    ∧ (∀ p0, transactions_ cm !! k = Some p0 →
         p = p0 ∧ transactions_ cm1 = transactions_ cm
         ∧ (methodType metadata1 = Ack → cm1 = cm)
         ∧ (methodType metadata1 ≠ Ack →
              next_addr cm1 = S (next_addr cm)
              ∧ heap cm1 = delete (next_addr cm) (heap cm)))
    ∧ (transactions_ cm !! k = None →
         p = next_addr cm
         ∧ transactions_ cm1 = <[k := p]> (transactions_ cm)
         ∧ heap cm1 = <[p := make_ActiveTrans metadata1]> (heap cm)
         ∧ next_addr cm1 = S (next_addr cm)).
Proof.
  intros Hk1 Hk2.
  assert (Hsecond : ∀ p cm1', transactions_ cm1' !! k = Some p →
            ∃ cm2, newDecoderEventHandler make_ActiveTrans metadata2 cm1' = (Ok p, cm2)
                   ∧ transactions_ cm2 = transactions_ cm1')
    by (intros p cm1' Hp; by apply (newDecoderEventHandler_indexed _ k)).
  destruct (transactions_ cm !! k) as [p0|] eqn:Hp0.
  - destruct (decide (methodType metadata1 = Ack)) as [Hack|Hack].
    + exists p0, cm.
      rewrite (newDecoderEventHandler_ack_indexed _ k p0) by done.
      split_and!; try done; [by apply Hsecond|].
      intros p [= <-]. by split_and!.
    + eexists p0, _.
      rewrite (newDecoderEventHandler_other_indexed _ k p0) by done.
      split_and!; try done; [by apply Hsecond|].
      intros p [= <-]. split_and!; try done.
      intros _. split; [done|]. simpl. apply delete_insert_eq.
  - eexists (next_addr cm), _.
    rewrite (newDecoderEventHandler_fresh _ k) by done.
    split_and!; try done; [apply lookup_insert_eq|by apply Hsecond].
Qed.

(** The index invariant of [resetAllTrans] is the manager's own: if the
    constructor files the transaction under the id of its message and the
    allocator hands out unused addresses, [newDecoderEventHandler] keeps
    every transaction indexed under its own id. *)
Lemma newDecoderEventHandler_keeps_indexed metadata cm r cm' :
  (∀ md k, transactionId md = Some k → transactionId_of (make_ActiveTrans md) = k) →
  allocator_fresh cm → indexed_by_id cm →
  newDecoderEventHandler make_ActiveTrans metadata cm = (r, cm') →
  allocator_fresh cm' ∧ indexed_by_id cm'.
Proof.
  intros Hctor Hfresh Hwf Hrun.
  destruct (transactionId metadata) as [k|] eqn:Hk.
  2:{ unfold newDecoderEventHandler, bind, value, throw in Hrun.
      rewrite Hk in Hrun. by injection Hrun as <- <-. }
  assert (Hnew : heap cm !! next_addr cm = None) by (by apply Hfresh).
  destruct (transactions_ cm !! k) as [p0|] eqn:Hp0.
  - destruct (decide (methodType metadata = Ack)) as [Hack|Hack].
    + rewrite (newDecoderEventHandler_ack_indexed _ k p0) in Hrun by done.
      by injection Hrun as <- <-.
    + rewrite (newDecoderEventHandler_other_indexed _ k p0) in Hrun by done.
      injection Hrun as <- <-. split.
      * intros p Hp. simpl in *. rewrite delete_insert_eq.
        rewrite lookup_delete_ne by lia. apply Hfresh. lia.
      * intros k' p' Hk'. simpl in *. rewrite delete_insert_eq.
        pose proof (Hwf k' p' Hk') as Hp'. simpl in Hp'.
        rewrite lookup_delete_ne; [done|]. intros <-. by rewrite Hnew in Hp'.
  - rewrite (newDecoderEventHandler_fresh _ k) in Hrun by done.
    injection Hrun as <- <-. split.
    + intros p Hp. simpl in *. rewrite lookup_insert_ne by lia. apply Hfresh. lia.
    + intros k' p' Hk'. simpl in *.
      destruct (decide (k = k')) as [<-|Hne].
      * rewrite lookup_insert_eq in Hk'. injection Hk' as <-.
        rewrite lookup_insert_eq. simpl. f_equal. by apply Hctor.
      * rewrite lookup_insert_ne in Hk' by done.
        pose proof (Hwf k' p' Hk') as Hp'. simpl in Hp'.
        rewrite lookup_insert_ne; [done|]. intros <-. by rewrite Hnew in Hp'.
Qed.

End NewDecoderEventHandler.

Lemma newDecoderEventHandler_shares_witness :
  ∃ p cm1 cm2,
    newDecoderEventHandler Samples.make_ActiveTrans
      (Samples.with_branch Invite "z9hG4bK-1")
      (Samples.manager Open (Samples.trans_awaiting None)) = (Ok p, cm1)
    ∧ newDecoderEventHandler Samples.make_ActiveTrans
        (Samples.with_branch Ack "z9hG4bK-1") cm1 = (Ok p, cm2).
Proof.
  destruct (newDecoderEventHandler_shares Samples.make_ActiveTrans
              (Samples.with_branch Invite "z9hG4bK-1")
              (Samples.with_branch Ack "z9hG4bK-1") "z9hG4bK-1"
              (Samples.manager Open (Samples.trans_awaiting None))
              eq_refl eq_refl)
    as (p & cm1 & H1 & Hp & H2 & _).
  destruct (H2 cm1 Hp) as (cm2 & Hrun2 & _).
  by exists p, cm1, cm2.
Defined.

(** C2, as stated, fails.  An INVITE whose transaction id is already
    indexed (at address 0) gets that transaction back, yet a new
    ActiveTrans has been constructed for it: the allocator has moved on
    from address 1 to address 2.  And two requests with the same branch do
    not share a transaction when the first one's was reset in between: the
    ACK gets the transaction at address 0, the INVITE after the reset a new
    one at address 1. *)
Lemma newDecoderEventHandler_constructs_on_indexed_id :
  let cm := Samples.manager Open (Samples.trans_awaiting None) in
  (transactions_ cm !! "z9hG4bK-1" = Some 0
   ∧ next_addr cm = 1
   ∧ ∃ cm', newDecoderEventHandler Samples.make_ActiveTrans
              (Samples.with_branch Invite "z9hG4bK-1") cm = (Ok 0, cm')
            ∧ next_addr cm' = 2)
  ∧ (∃ cm1 cm2 cm3,
       newDecoderEventHandler Samples.make_ActiveTrans
         (Samples.with_branch Ack "z9hG4bK-1") cm = (Ok 0, cm1)
       ∧ onReset 0 cm1 = (Ok tt, cm2)
       ∧ newDecoderEventHandler Samples.make_ActiveTrans
           (Samples.with_branch Invite "z9hG4bK-1") cm2 = (Ok 1, cm3)).
Proof.
  intros cm. split.
  - split; [reflexivity|]. split; [reflexivity|].
    eexists. split.
    + by apply (newDecoderEventHandler_other_indexed _ _ "z9hG4bK-1" 0).
    + reflexivity.
  - eexists _, _, _. split_and!.
    + by apply (newDecoderEventHandler_ack_indexed _ _ "z9hG4bK-1" 0).
    + by apply (onReset_indexed 0 (Samples.trans_awaiting None) 0).
    + apply (newDecoderEventHandler_fresh _ _ "z9hG4bK-1"); [done|].
      apply lookup_delete_eq.
Qed.

(** *** [complete] *)

Lemma empty_false s : empty s = false ↔ s ≠ "".
Proof. destruct s; simpl; split; congruence. Qed.

Lemma for_each_retrieve_item resp cm :
  for_each retrieve_item resp cm
  = (Ok tt,
     mkConnectionManager (connection cm) (stats_ cm) (heap cm) (next_addr cm)
       (transactions_ cm) (deferred_delete cm)
       (foldl retrieve_cookie (p_cookie_ip_map_ cm) resp)
       (foldl retrieve_destination (decoder_metadata cm) resp)
       (local_reply_calls cm)).
Proof.
  revert cm; induction resp as [|item resp IH]; intros cm.
  - by destruct cm.
  - cbn [for_each foldl]. unfold bind at 1.
    unfold retrieve_item, retrieve_cookie at 2, retrieve_destination at 2.
    destruct (empty item.2); simpl.
    + unfold ret. by rewrite IH.
    + unfold bind, modify. by rewrite IH.
Qed.

(** An entry that is already in the cookie map survives the loop. *)
Lemma retrieve_cookie_keeps resp (m : gmap string string) key host0 :
  m !! key = Some host0 → foldl retrieve_cookie m resp !! key = Some host0.
Proof.
  revert m; induction resp as [|item resp IH]; intros m Hk; simpl; [done|].
  apply IH. unfold retrieve_cookie, emplace.
  destruct (empty item.2); [done|].
  destruct (m !! item.1) eqn:E; [done|].
  rewrite lookup_insert_ne; [done|]. intros Heq. rewrite Heq in E. congruence.
Qed.

(** A key the map does not know yet ends up with the host of its first
    non-empty pair. *)
Lemma retrieve_cookie_adds resp (m : gmap string string) key host :
  m !! key = None → NoDup resp.*1 → (key, host) ∈ resp → host ≠ "" →
  foldl retrieve_cookie m resp !! key = Some host.
Proof.
  revert m; induction resp as [|item resp IH]; intros m Hk Hnd Hin Hne;
    [by inversion Hin|].
  rewrite fmap_cons in Hnd. apply NoDup_cons in Hnd as [Hfresh Hnd].
  simpl. apply elem_of_cons in Hin as [<-|Hin].
  - apply retrieve_cookie_keeps. unfold retrieve_cookie, emplace. simpl.
    apply empty_false in Hne. rewrite Hne, Hk. apply lookup_insert_eq.
  - apply IH; try done. unfold retrieve_cookie, emplace.
    destruct (empty item.2); [done|].
    destruct (m !! item.1) eqn:E; [done|].
    rewrite lookup_insert_ne; [done|]. intros Heq. apply Hfresh.
    apply list_elem_of_fmap. exists (key, host). by rewrite Heq.
Qed.

(** The destination after the loop is the host of the last pair, when
    that host is not empty. *)
Lemma retrieve_destination_last resp metadata key host :
  host ≠ "" →
  destination (foldl retrieve_destination metadata (resp ++ [(key, host)])) = Some host.
Proof.
  intros Hne%empty_false. rewrite foldl_app. simpl.
  unfold retrieve_destination at 1. simpl. by rewrite Hne.
Qed.

Section Complete.
Variable decoder_onData : bool → M ConnectionManager unit.

Lemma complete_retrieve_exec resp cm :
  complete decoder_onData RetrieveLskpmcResp resp cm
  = continueHanding decoder_onData
      (mkConnectionManager (connection cm) (stats_ cm) (heap cm) (next_addr cm)
         (transactions_ cm) (deferred_delete cm)
         (foldl retrieve_cookie (p_cookie_ip_map_ cm) resp)
         (foldl retrieve_destination (decoder_metadata cm) resp)
     (local_reply_calls cm)).
Proof. unfold complete. unfold bind. by rewrite for_each_retrieve_item. Qed.

(** C9, as the code has it.  On a [RetrieveLskpmcResp], [complete] runs
    over the pairs of the response and then drives the decoder again on
    the state the loop left.  A pair with a non-empty host sets the
    destination of the current metadata to that host and is emplaced
    into the cookie map: it is added when its key is new, and a key the
    map already holds keeps the host it had.  A pair with an empty host
    changes neither.  Nothing else of the manager is touched before the
    decoder runs. *)
Theorem complete_retrieve (resp : list (string * string)) (cm : ConnectionManager) :
  complete decoder_onData RetrieveLskpmcResp resp cm
  = continueHanding decoder_onData
      (mkConnectionManager (connection cm) (stats_ cm) (heap cm) (next_addr cm)
         (transactions_ cm) (deferred_delete cm)
         (foldl retrieve_cookie (p_cookie_ip_map_ cm) resp)
         (foldl retrieve_destination (decoder_metadata cm) resp)
         (local_reply_calls cm))
  ∧ (∀ key host metadata (m : gmap string string), host ≠ "" →
       destination (retrieve_destination metadata (key, host)) = Some host
       ∧ retrieve_cookie m (key, host) = emplace key host m
       ∧ (m !! key = None → retrieve_cookie m (key, host) !! key = Some host)
       ∧ (∀ host0, m !! key = Some host0 → retrieve_cookie m (key, host) = m))
  ∧ (∀ key metadata (m : gmap string string),
       retrieve_destination metadata (key, "") = metadata
       ∧ retrieve_cookie m (key, "") = m).
Proof.
  split_and!.
  - apply complete_retrieve_exec.
  - intros key host metadata m Hne%empty_false.
    unfold retrieve_destination, retrieve_cookie, emplace. simpl. rewrite Hne.
    split_and!; try done.
    + intros ->. apply lookup_insert_eq.
    + by intros host0 ->.
  - done.
Qed.

End Complete.

(** C9, as stated, fails: the cookie [abc] is already mapped to 10.0.0.5
    when the response maps it to 10.0.0.9.  The destination becomes
    10.0.0.9, but the pair is not inserted: the map still sends [abc] to
    10.0.0.5. *)
Lemma complete_retrieve_keeps_known_cookie :
  ∃ cm',
    complete Samples.decoder_idle RetrieveLskpmcResp [("abc", "10.0.0.9")]
      Samples.manager_with_cookie = (Ok tt, cm')
    ∧ destination (decoder_metadata cm') = Some "10.0.0.9"
    ∧ p_cookie_ip_map_ cm' !! "abc" = Some "10.0.0.5"
    ∧ p_cookie_ip_map_ cm' !! "abc" ≠ Some "10.0.0.9".
Proof.
  eexists. split.
  - rewrite complete_retrieve_exec. reflexivity.
  - simpl. unfold retrieve_cookie, emplace. simpl.
    rewrite lookup_singleton_eq. by split_and!.
Qed.

(** *** Egress: [sendLocalReply] and [ResponseDecoder::transportEnd] *)

Section Egress.
Variable encode : MessageMetadata → Buffer.

Lemma sendLocalReply_closed {R} `{DirectResponse R} metadata (response : R) end_stream cm :
  state (connection cm) = Closed →
  sendLocalReply encode metadata response end_stream cm
  = (Ok metadata, upd_local_reply_calls S cm).
Proof.
  intros Hc. unfold sendLocalReply, bind, modify, get. simpl.
  by rewrite decide_True.
Qed.

Lemma sendLocalReply_open {R} `{DirectResponse R} metadata (response : R) end_stream cm :
  state (connection cm) ≠ Closed →
  ∃ metadata' cm',
    sendLocalReply encode metadata response end_stream cm = (Ok metadata', cm')
    ∧ EP metadata' = Some (getLocalIp cm)
    ∧ calls (connection cm')
      = calls (connection cm)
        ++ write (encode metadata') end_stream
           :: (if end_stream then [close FlushWrite] else [])
    ∧ state (connection cm') = state (connection cm)
    ∧ local_reply_calls cm' = S (local_reply_calls cm).
Proof.
  intros Hc. unfold sendLocalReply, bind, modify, get. simpl.
  rewrite decide_False by done.
  destruct (response_encode response metadata "") as [[result metadata1] buffer].
  destruct end_stream; simpl; eexists _, _; (split; [reflexivity|]); simpl.
  - rewrite <- app_assoc. by split_and!.
  - by split_and!.
Qed.

Lemma transportEnd_closed self t rd cm :
  heap cm !! self = Some t →
  response_decoder_ t = Some rd →
  state (connection cm) = Closed →
  ResponseDecoder_transportEnd encode self cm
  = (Throw (EnvoyException "downstream connection is closed"), cm).
Proof.
  intros Ht Hrd Hc. unfold ResponseDecoder_transportEnd.
  rewrite (bind_Ok _ _ _ _ _ (deref_Some _ _ _ Ht)).
  rewrite Hrd. unfold bind, nonnull, ret, get, throw. by rewrite decide_True.
Qed.

Lemma transportEnd_open self t rd metadata cm :
  heap cm !! self = Some t →
  response_decoder_ t = Some rd →
  rd_metadata_ rd = Some metadata →
  state (connection cm) ≠ Closed →
  ∃ cm',
    ResponseDecoder_transportEnd encode self cm = (Ok Continue, cm')
    ∧ calls (connection cm')
      = calls (connection cm) ++ [write (encode (setEP (getLocalIp cm) metadata)) false]
    ∧ response_ (stats_ cm') = S (response_ (stats_ cm)).
Proof.
  intros Ht Hrd Hmd Hc. unfold ResponseDecoder_transportEnd.
  rewrite (bind_Ok _ _ _ _ _ (deref_Some _ _ _ Ht)).
  rewrite Hrd. unfold bind at 1, nonnull at 1, ret at 1.
  unfold bind at 1, get at 1. rewrite decide_False by done.
  rewrite Hmd. unfold bind at 1, nonnull at 1, ret at 1.
  erewrite bind_Ok by (by apply store_Some).
  unfold bind, modify, ret. simpl. eexists. by split_and!.
Qed.

(** C6.  Let the encoder put [ep=<EP>] into the bytes of every metadata
    whose EP is set.  Then:
    - [sendLocalReply] on a connection that is not closed returns
      normally and issues exactly one write; the bytes written are the
      encoding of a metadata whose EP is the local IP, and they carry
      [ep=<local ip>];
    - [ResponseDecoder::transportEnd] on a connection that is not closed,
      for a response decoder holding a metadata, returns [Continue] and
      issues exactly one write, of the encoding of that metadata with its
      EP set to the local IP, and the bytes carry [ep=<local ip>]. *)
Theorem egress_carries_local_ep :
  (∀ metadata ip, EP metadata = Some ip → StringView.carries_ep ip (encode metadata)) →
  (∀ R (D : DirectResponse R) metadata (response : R) end_stream cm,
     state (connection cm) ≠ Closed →
     ∃ metadata' cm',
       sendLocalReply encode metadata response end_stream cm = (Ok metadata', cm')
       ∧ EP metadata' = Some (getLocalIp cm)
       ∧ calls (connection cm')
         = calls (connection cm)
           ++ write (encode metadata') end_stream
              :: (if end_stream then [close FlushWrite] else [])
       ∧ StringView.carries_ep (getLocalIp cm) (encode metadata'))
  ∧ (∀ self t rd metadata cm,
       heap cm !! self = Some t →
       response_decoder_ t = Some rd →
       rd_metadata_ rd = Some metadata →
       state (connection cm) ≠ Closed →
       ∃ cm',
         ResponseDecoder_transportEnd encode self cm = (Ok Continue, cm')
         ∧ EP (setEP (getLocalIp cm) metadata) = Some (getLocalIp cm)
         ∧ calls (connection cm')
           = calls (connection cm)
             ++ [write (encode (setEP (getLocalIp cm) metadata)) false]
         ∧ StringView.carries_ep (getLocalIp cm)
             (encode (setEP (getLocalIp cm) metadata))).
Proof.
  intros Henc. split.
  - intros R D metadata response end_stream cm Hc.
    destruct (sendLocalReply_open metadata response end_stream cm Hc)
      as (metadata' & cm' & Hrun & Hep & Hcalls & _).
    exists metadata', cm'. split_and!; try done. by apply Henc.
  - intros self t rd metadata cm Ht Hrd Hmd Hc.
    destruct (transportEnd_open self t rd metadata cm Ht Hrd Hmd Hc)
      as (cm' & Hrun & Hcalls & _).
    exists cm'. split_and!; try done. by apply Henc.
Qed.

End Egress.

Lemma sample_encode_carries_ep metadata ip :
  EP metadata = Some ip → StringView.carries_ep ip (Samples.encode metadata).
Proof.
  intros Hep. unfold Samples.encode. rewrite Hep. simpl.
  exists (String.length (raw_msg_ metadata +:+ ";")), (raw_msg_ metadata +:+ ";"), "".
  split; [|done].
  rewrite StringViewFacts.sapp_nil_r.
  by rewrite <- (StringViewFacts.sapp_assoc (raw_msg_ metadata) ";").
Qed.

Lemma egress_carries_local_ep_witness :
  ∃ metadata' cm',
    sendLocalReply Samples.encode Samples.invite
      (mkAppException ProtocolError "no healthy upstream") false
      (Samples.manager Open (Samples.trans_awaiting None)) = (Ok metadata', cm')
    ∧ EP metadata' = Some "127.0.0.1"
    ∧ StringView.carries_ep "127.0.0.1" (Samples.encode metadata').
Proof.
  destruct (proj1 (egress_carries_local_ep Samples.encode sample_encode_carries_ep)
              AppException _ Samples.invite
              (mkAppException ProtocolError "no healthy upstream") false
              (Samples.manager Open (Samples.trans_awaiting None)))
    as (metadata' & cm' & Hrun & Hep & _ & Hcarry); [done|].
  by exists metadata', cm'.
Defined.

(** *** Upstream data on a closed downstream connection *)

Section UpstreamData.
Variable encode : MessageMetadata → Buffer.
Variable ResponseDecoder_transportBegin : MessageMetadata → FilterStatus.

Lemma onData_stopped self t rd metadata cm :
  heap cm !! self = Some t →
  response_decoder_ t = Some rd →
  ResponseDecoder_transportBegin metadata = StopIteration →
  ResponseDecoder_onData encode ResponseDecoder_transportBegin self metadata cm
  = (Ok true, upd_heap <[self := received metadata t]> cm).
Proof.
  intros Ht Hrd Hstop. unfold ResponseDecoder_onData.
  rewrite (bind_Ok _ _ _ _ _ (deref_Some _ _ _ Ht)).
  rewrite Hrd. unfold bind at 1, nonnull at 1, ret at 1.
  erewrite bind_Ok by (by apply store_Some).
  by rewrite Hstop.
Qed.

Lemma onData_closed self t rd metadata cm :
  heap cm !! self = Some t →
  response_decoder_ t = Some rd →
  state (connection cm) = Closed →
  ResponseDecoder_transportBegin metadata = Continue →
  ResponseDecoder_onData encode ResponseDecoder_transportBegin self metadata cm
  = (Throw (EnvoyException "downstream connection is closed"),
     upd_heap <[self := received metadata t]> cm).
Proof.
  intros Ht Hrd Hc Hcont. unfold ResponseDecoder_onData.
  rewrite (bind_Ok _ _ _ _ _ (deref_Some _ _ _ Ht)).
  rewrite Hrd. unfold bind at 1, nonnull at 1, ret at 1.
  erewrite bind_Ok by (by apply store_Some).
  rewrite Hcont. simpl.
  erewrite bind_Throw; [done|].
  eapply transportEnd_closed; [apply lookup_insert_eq|done|done].
Qed.

(** C3, as the code has it.  Let the downstream connection be closed
    when [upstreamData] hands a response to the response decoder of a
    live transaction.  If the decoder's [transportBegin] stops the
    message, the call completes at once.  Otherwise [transportEnd]
    throws before it sets the EP, encodes or writes, and [upstreamData]
    answers [Reset] through [onError]:
    - when the transaction holds its request metadata, [onError] does
      call [sendLocalReply] (once), which returns at its own
      closed-connection guard: no call reaches the connection, no
      counter moves, the index and the deferred-delete list are as
      before;
    - when it holds none, [onError] hands the transaction to the
      deferred-delete list, erases it from the index and calls
      [close(NoFlush)] on the connection (and the [out_of_range] of
      that erasure escapes when the transaction was not indexed).
    In every case nothing is written downstream. *)
Theorem upstreamData_closed
    (self : nat) (t : ActiveTrans) (rd : ResponseDecoder) (metadata : MessageMetadata)
    (cm : ConnectionManager) :
  heap cm !! self = Some t →
  response_decoder_ t = Some rd →
  state (connection cm) = Closed →
  let run := upstreamData encode ResponseDecoder_transportBegin self metadata cm in
  let cm1 := upd_heap <[self := received metadata t]> cm in
  (ResponseDecoder_transportBegin metadata = StopIteration → run = (Ok Complete, cm1))
  ∧ (ResponseDecoder_transportBegin metadata = Continue →
       (∀ m, metadata_ t = Some m →
          run = (Ok Reset, upd_local_reply_calls S cm1))
       ∧ (metadata_ t = None →
            (∀ p, transactions_ cm !! transactionId_of t = Some p →
               run = (Ok Reset,
                      upd_connection (call (close NoFlush))
                        (upd_transactions (delete (transactionId_of t))
                           (upd_deferred_delete (λ l, l ++ [p]) cm1))))
            ∧ (transactions_ cm !! transactionId_of t = None →
                 run = (Throw out_of_range, cm1))))
  ∧ (∀ data end_stream, write data end_stream ∈ calls (connection run.2)
                        → write data end_stream ∈ calls (connection cm)).
Proof.
  intros Ht Hrd Hc run cm1.
  assert (Ht1 : heap cm1 !! self = Some (received metadata t))
    by apply lookup_insert_eq.
  assert (Hstop : ResponseDecoder_transportBegin metadata = StopIteration
                  → run = (Ok Complete, cm1)).
  { intros Hs. unfold run, upstreamData, try_catch.
    erewrite bind_Ok by (by eapply onData_stopped). done. }
  assert (Hmd : ResponseDecoder_transportBegin metadata = Continue →
            ∀ m, metadata_ t = Some m → run = (Ok Reset, upd_local_reply_calls S cm1)).
  { intros Hcont m Hm. unfold run, upstreamData, try_catch.
    erewrite bind_Throw by (by eapply onData_closed). fold cm1.
    unfold onError. erewrite bind_Ok.
    2:{ erewrite bind_Ok by (by apply deref_Some). simpl. rewrite Hm.
        unfold ActiveTrans_sendLocalReply.
        erewrite bind_Ok by (by apply deref_Some). simpl. rewrite Hm.
        unfold bind at 1, nonnull at 1, ret at 1.
        erewrite bind_Ok by (by apply sendLocalReply_closed).
        erewrite bind_Ok by (by apply store_Some). done. }
    unfold ret. f_equal. unfold cm1, upd_heap, upd_local_reply_calls. simpl.
    f_equal. rewrite insert_insert_eq. f_equal.
    destruct t; simpl in *. by rewrite Hm. }
  assert (Hnone : ResponseDecoder_transportBegin metadata = Continue →
            metadata_ t = None →
            (∀ p, transactions_ cm !! transactionId_of t = Some p →
               run = (Ok Reset,
                      upd_connection (call (close NoFlush))
                        (upd_transactions (delete (transactionId_of t))
                           (upd_deferred_delete (λ l, l ++ [p]) cm1))))
            ∧ (transactions_ cm !! transactionId_of t = None →
                 run = (Throw out_of_range, cm1))).
  { intros Hcont Hm. split.
    - intros p Hp. unfold run, upstreamData, try_catch.
      erewrite bind_Throw by (by eapply onData_closed). fold cm1.
      unfold onError. erewrite bind_Ok.
      2:{ erewrite bind_Ok by (by apply deref_Some). simpl. rewrite Hm.
          erewrite bind_Ok; [done|].
          apply (onReset_indexed self (received metadata t) p cm1); done. }
      done.
    - intros Hp. unfold run, upstreamData, try_catch.
      erewrite bind_Throw by (by eapply onData_closed). fold cm1.
      unfold onError. erewrite bind_Throw; [done|].
      erewrite bind_Ok by (by apply deref_Some). simpl. rewrite Hm.
      erewrite bind_Throw; [done|].
      unfold doDeferredTransDestroy.
      erewrite bind_Ok by (by apply deref_Some).
      unfold bind, get, map_at, transactionId_of in *. simpl. by rewrite Hp. }
  split; [done|]. split.
  { intros Hcont. split; [by apply Hmd|]. intros Hm. by apply Hnone. }
  intros data end_stream.
  destruct (ResponseDecoder_transportBegin metadata) eqn:Hb.
  - destruct (metadata_ t) as [m|] eqn:Hm.
    + by rewrite (Hmd eq_refl m eq_refl).
    + destruct (Hnone eq_refl eq_refl) as [Hin Hout].
      destruct (transactions_ cm !! transactionId_of t) as [p|] eqn:Hp.
      * rewrite (Hin p eq_refl). simpl.
        rewrite elem_of_app, list_elem_of_singleton. by intros [?|?].
      * by rewrite (Hout eq_refl).
  - by rewrite (Hstop eq_refl).
Qed.

End UpstreamData.

Lemma upstreamData_closed_witness :
  upstreamData Samples.encode Samples.transportBegin_continue 0 Samples.ok200
    (Samples.manager Closed (Samples.trans_awaiting (Some Samples.invite)))
  = (Ok Reset,
     upd_local_reply_calls S
       (upd_heap <[0 := set_response_decoder
                          (Some (mkResponseDecoder (Some Samples.ok200)))
                          (Samples.trans_awaiting (Some Samples.invite))]>
          (Samples.manager Closed (Samples.trans_awaiting (Some Samples.invite))))).
Proof.
  apply (proj1 (proj1 (proj2 (upstreamData_closed Samples.encode
                  Samples.transportBegin_continue 0
                  (Samples.trans_awaiting (Some Samples.invite))
                  (mkResponseDecoder None) Samples.ok200
                  (Samples.manager Closed (Samples.trans_awaiting (Some Samples.invite)))
                  ltac:(reflexivity) eq_refl eq_refl)) eq_refl) Samples.invite eq_refl).
Defined.

(** C3, as stated, fails.  The connection is closed and the transaction
    holds its request metadata: the response is not written, yet a local
    reply is attempted ([sendLocalReply] is called once).  With a
    transaction that holds no metadata the connection is touched as well:
    it receives [close(NoFlush)], and the transaction is erased. *)
Lemma upstreamData_closed_attempts_local_reply :
  (∃ cm',
     upstreamData Samples.encode Samples.transportBegin_continue 0 Samples.ok200
       (Samples.manager Closed (Samples.trans_awaiting (Some Samples.invite)))
     = (Ok Reset, cm')
     ∧ calls (connection cm') = []
     ∧ local_reply_calls cm' = 1)
  ∧ (∃ cm',
       upstreamData Samples.encode Samples.transportBegin_continue 0 Samples.ok200
         (Samples.manager Closed (Samples.trans_awaiting None))
       = (Ok Reset, cm')
       ∧ calls (connection cm') = [close NoFlush]
       ∧ transactions_ cm' = ∅).
Proof.
  split; eexists; (split; [vm_compute; reflexivity|]).
  - by split.
  - split; [done|]. reflexivity.
Qed.

(** *** The filter chain *)

Section FilterChain.
Variable encode : MessageMetadata → Buffer.
Variable filter_call : nat → Stage → option MessageMetadata → M ConnectionManager FilterStatus.

Local Abbreviation run_filter := (run_filter_action filter_call).
Local Abbreviation walk := (ConnManager.walk filter_call).
Local Abbreviation passes := (ConnManager.passes filter_call).

Lemma finish_walk_live self t cm :
  heap cm !! self = Some t →
  finish_walk self cm = (Ok Continue, upd_heap <[self := cleared t]> cm).
Proof.
  intros Ht. unfold finish_walk.
  erewrite bind_Ok by (by apply store_Some).
  erewrite bind_Ok by (apply store_Some, lookup_insert_eq).
  unfold ret, upd_heap, cleared. simpl. by rewrite insert_insert_eq.
Qed.

(** Filters that pass are walked over. *)
Lemma walk_passes self pre rest cm cm1 :
  passes self pre cm cm1 → walk self (pre ++ rest) cm = walk self rest cm1.
Proof.
  induction 1 as [|entry pre cm cm1 cm2 t Hrun Ht Hflag Hpre IH]; [done|].
  cbn [app ConnManager.walk].
  erewrite bind_Ok by done.
  erewrite bind_Ok by (by apply deref_Some).
  by rewrite Hflag.
Qed.

(** The first filter after which [local_response_sent_] is set ends the
    loop by [break]. *)
Lemma walk_reply_sent self entry post cm status cm' t' :
  run_filter self entry cm = (Ok status, cm') →
  heap cm' !! self = Some t' →
  local_response_sent_ t' = true →
  walk self (entry :: post) cm = (Ok None, cm').
Proof.
  intros Hrun Ht Hflag. cbn [ConnManager.walk].
  erewrite bind_Ok by done.
  erewrite bind_Ok by (by apply deref_Some).
  by rewrite Hflag.
Qed.

(** The first filter that answers [StopIteration] ends the loop by
    [return]. *)
Lemma walk_stop self entry post cm cm' t' :
  run_filter self entry cm = (Ok StopIteration, cm') →
  heap cm' !! self = Some t' →
  local_response_sent_ t' = false →
  walk self (entry :: post) cm = (Ok (Some StopIteration), cm').
Proof.
  intros Hrun Ht Hflag. cbn [ConnManager.walk].
  erewrite bind_Ok by done.
  erewrite bind_Ok by (by apply deref_Some).
  by rewrite Hflag.
Qed.

Lemma passes_live self pre cm cm1 t :
  heap cm !! self = Some t → passes self pre cm cm1 → is_Some (heap cm1 !! self).
Proof.
  intros Ht Hp. revert t Ht.
  induction Hp as [cm|entry pre cm cm1 cm2 t' Hrun Ht' Hflag Hp IH]; intros t Ht.
  - by eexists.
  - by eapply IH.
Qed.

(** The walk over any stretch of the chain ends in one of three ways:
    every filter passes; or some first filter stops the walk, by its
    status or by a local reply; or some first filter call throws or
    destroys the transaction under the walk. *)
Lemma walk_cases self entries cm :
  (∃ cm1, passes self entries cm cm1)
  ∨ (∃ pre entry post cm1 status cm2 t2,
       entries = pre ++ entry :: post ∧ passes self pre cm cm1
       ∧ run_filter self entry cm1 = (Ok status, cm2)
       ∧ heap cm2 !! self = Some t2
       ∧ (local_response_sent_ t2 = true ∨ status = StopIteration))
  ∨ (∃ pre entry post cm1 r cm2,
       entries = pre ++ entry :: post ∧ passes self pre cm cm1
       ∧ run_filter self entry cm1 = (r, cm2)
       ∧ ((∃ e, r = Throw e) ∨ heap cm2 !! self = None)).
Proof.
  revert cm; induction entries as [|entry entries IH]; intros cm.
  - left. exists cm. constructor.
  - destruct (run_filter self entry cm) as [r cm'] eqn:Hrun.
    destruct r as [status|e].
    2:{ right; right. exists [], entry, entries, cm, (Throw e), cm'.
        split_and!; [done|constructor|done|]. left; eauto. }
    destruct (heap cm' !! self) as [t'|] eqn:Ht'.
    2:{ right; right. exists [], entry, entries, cm, (Ok status), cm'.
        split_and!; [done|constructor|done|]. by right. }
    destruct (local_response_sent_ t') eqn:Hflag.
    { right; left. exists [], entry, entries, cm, status, cm', t'.
      split_and!; [done|constructor|done|done|]. by left. }
    destruct status.
    2:{ right; left. exists [], entry, entries, cm, StopIteration, cm', t'.
        split_and!; [done|constructor|done|done|]. by right. }
    destruct (IH cm') as [(cm1 & Hp)|[Hs|Ht]].
    + left. exists cm1. by econstructor.
    + right; left.
      destruct Hs as (pre & e & post & cm1 & status & cm2 & t2 & -> & Hp & H).
      exists (entry :: pre), e, post, cm1, status, cm2, t2.
      split; [done|]. split; [by econstructor|done].
    + right; right.
      destruct Ht as (pre & e & post & cm1 & r & cm2 & -> & Hp & H).
      exists (entry :: pre), e, post, cm1, r, cm2.
      split; [done|]. split; [by econstructor|done].
Qed.

(** A stretch of passing filters leaves [local_response_sent_] unset. *)
Lemma passes_flag self pre cm cm1 t t1 :
  heap cm !! self = Some t → local_response_sent_ t = false →
  passes self pre cm cm1 → heap cm1 !! self = Some t1 →
  local_response_sent_ t1 = false.
Proof.
  intros Ht Hflag Hp. revert t Ht Hflag.
  induction Hp as [cm|entry pre cm cm1 cm2 t' Hrun Ht' Hflag' Hp IH]; intros t Ht Hflag Ht1.
  - congruence.
  - by eapply IH.
Qed.

Lemma passes_snoc self pre entry cm cm1 cm2 t2 :
  passes self pre cm cm1 →
  run_filter self entry cm1 = (Ok Continue, cm2) →
  heap cm2 !! self = Some t2 →
  local_response_sent_ t2 = false →
  passes self (pre ++ [entry]) cm cm2.
Proof.
  intros Hp Hrun Ht2 Hflag2.
  induction Hp as [cm|x pre cm cm' cm1 t' Hx Ht' Hflag' Hp IH].
  - econstructor; [done|done|done|constructor].
  - cbn [app]. econstructor; [done|done|done|]. by apply IH.
Qed.

(** [ConnectionManager::sendLocalReply] returns on every connection and
    leaves the transactions as they are. *)
Lemma sendLocalReply_returns {R} `{DirectResponse R} metadata (response : R) end_stream cm :
  ∃ metadata' cm',
    sendLocalReply encode metadata response end_stream cm = (Ok metadata', cm')
    ∧ heap cm' = heap cm
    ∧ local_reply_calls cm' = S (local_reply_calls cm).
Proof.
  unfold sendLocalReply, bind, modify, get. simpl.
  destruct (decide (state (connection cm) = Closed)); [by eexists _, _|].
  destruct (response_encode response metadata "") as [[result metadata1] buffer].
  destruct end_stream; by eexists _, _.
Qed.

(** [ActiveTrans::sendLocalReply] sets [local_response_sent_] exactly
    when [end_stream] is false; with [end_stream] true it returns before
    the assignment. *)
Lemma ActiveTrans_sendLocalReply_flag {R} `{DirectResponse R}
    self t md (response : R) end_stream cm :
  heap cm !! self = Some t →
  metadata_ t = Some md →
  ∃ cm' t',
    ActiveTrans_sendLocalReply encode self response end_stream cm = (Ok tt, cm')
    ∧ heap cm' !! self = Some t'
    ∧ local_response_sent_ t' = (if end_stream then local_response_sent_ t else true)
    ∧ local_reply_calls cm' = S (local_reply_calls cm).
Proof.
  intros Ht Hmd.
  destruct (sendLocalReply_returns md response end_stream cm)
    as (md' & cm1 & Hrun & Hheap & Hcalls).
  assert (Ht1 : heap cm1 !! self = Some t) by (by rewrite Hheap).
  unfold ActiveTrans_sendLocalReply.
  erewrite bind_Ok by (by apply deref_Some). rewrite Hmd.
  unfold bind at 1, nonnull at 1, ret at 1.
  erewrite bind_Ok by exact Hrun.
  erewrite bind_Ok by (by apply store_Some).
  destruct end_stream.
  - eexists _, _. split; [reflexivity|].
    cbn [heap upd_heap local_reply_calls]. rewrite lookup_insert_eq.
    by split_and!.
  - eexists _, _. split; [apply store_Some, lookup_insert_eq|].
    cbn [heap upd_heap local_reply_calls]. rewrite lookup_insert_eq.
    by split_and!.
Qed.

(** Each of the four decoder events stores its action and then walks the
    chain with a null [filter]. *)
Lemma ActiveTrans_event_walk stage self md t cm :
  heap cm !! self = Some t →
  ∃ cm0 t0,
    ActiveTrans_event filter_call stage self md cm
    = applyDecoderFilters filter_call self None cm0
    ∧ heap cm0 !! self = Some t0
    ∧ decoder_filters_ t0 = decoder_filters_ t
    ∧ local_response_sent_ t0 = local_response_sent_ t
    ∧ filter_action_ t0 = Some stage.
Proof.
  intros Ht. destruct stage; cbn [ActiveTrans_event].
  - unfold ActiveTrans_transportBegin.
    erewrite bind_Ok by (by apply store_Some).
    erewrite bind_Ok by (apply store_Some, lookup_insert_eq).
    eexists _, _. split; [reflexivity|].
    cbn [heap upd_heap]. by rewrite lookup_insert_eq.
  - unfold ActiveTrans_messageBegin.
    erewrite bind_Ok by (by apply store_Some).
    erewrite bind_Ok by (apply store_Some, lookup_insert_eq).
    erewrite bind_Ok by (apply store_Some, lookup_insert_eq).
    eexists _, _. split; [reflexivity|].
    cbn [heap upd_heap]. by rewrite lookup_insert_eq.
  - unfold ActiveTrans_messageEnd.
    erewrite bind_Ok by (by apply store_Some).
    eexists _, _. split; [reflexivity|].
    cbn [heap upd_heap]. by rewrite lookup_insert_eq.
  - unfold ActiveTrans_transportEnd.
    unfold bind at 1, modify at 1.
    erewrite bind_Ok by (by apply store_Some).
    eexists _, _. split; [reflexivity|].
    cbn [heap upd_heap]. by rewrite lookup_insert_eq.
Qed.

(** The walk of [applyDecoderFilters] over [entries] on a transaction
    whose flag is unset. *)
Lemma applyDecoderFilters_walk self filter t cm :
  heap cm !! self = Some t →
  local_response_sent_ t = false →
  applyDecoderFilters filter_call self filter cm
  = (r <~ walk self (start_entries filter t) ;;
     match r with
     | Some status => ret status
     | None => finish_walk self
     end) cm.
Proof.
  intros Ht Hflag. unfold applyDecoderFilters.
  erewrite bind_Ok by (by apply deref_Some). by rewrite Hflag.
Qed.

Lemma applyDecoderFilters_all_pass self filter t cm cm1 t1 :
  heap cm !! self = Some t →
  local_response_sent_ t = false →
  passes self (start_entries filter t) cm cm1 →
  heap cm1 !! self = Some t1 →
  applyDecoderFilters filter_call self filter cm
  = (Ok Continue, upd_heap <[self := cleared t1]> cm1).
Proof.
  intros Ht Hflag Hp Ht1. rewrite (applyDecoderFilters_walk _ _ t) by done.
  erewrite bind_Ok.
  2:{ rewrite <- (app_nil_r (start_entries filter t)).
      by rewrite (walk_passes _ _ [] _ _ Hp). }
  by apply finish_walk_live.
Qed.

Lemma applyDecoderFilters_reply_sent self filter t cm pre entry post cm1 status cm2 t2 :
  heap cm !! self = Some t →
  local_response_sent_ t = false →
  start_entries filter t = pre ++ entry :: post →
  passes self pre cm cm1 →
  run_filter self entry cm1 = (Ok status, cm2) →
  heap cm2 !! self = Some t2 →
  local_response_sent_ t2 = true →
  applyDecoderFilters filter_call self filter cm
  = (Ok Continue, upd_heap <[self := cleared t2]> cm2).
Proof.
  intros Ht Hflag Hsplit Hp Hrun Ht2 Hflag2.
  rewrite (applyDecoderFilters_walk _ _ t) by done. rewrite Hsplit.
  erewrite bind_Ok.
  2:{ rewrite (walk_passes _ _ _ _ _ Hp). by eapply walk_reply_sent. }
  by apply finish_walk_live.
Qed.

Lemma applyDecoderFilters_stop self filter t cm pre entry post cm1 cm2 t2 :
  heap cm !! self = Some t →
  local_response_sent_ t = false →
  start_entries filter t = pre ++ entry :: post →
  passes self pre cm cm1 →
  run_filter self entry cm1 = (Ok StopIteration, cm2) →
  heap cm2 !! self = Some t2 →
  local_response_sent_ t2 = false →
  applyDecoderFilters filter_call self filter cm = (Ok StopIteration, cm2).
Proof.
  intros Ht Hflag Hsplit Hp Hrun Ht2 Hflag2.
  rewrite (applyDecoderFilters_walk _ _ t) by done. rewrite Hsplit.
  erewrite bind_Ok.
  2:{ rewrite (walk_passes _ _ _ _ _ Hp). by eapply walk_stop. }
  done.
Qed.

(** Where the walk starts. *)
Lemma start_entries_spec filter t entries :
  (filter = None ∧ entries = decoder_filters_ t
   ∨ ∃ i before suspended,
       filter = Some i ∧ decoder_filters_ t = before ++ suspended :: entries
       ∧ length before = i) →
  start_entries filter t = entries.
Proof.
  intros [[-> ->]|(i & before & suspended & -> & Hchain & <-)]; [done|].
  unfold start_entries. rewrite Hchain.
  rewrite cons_middle, app_assoc. apply drop_app_length'.
  rewrite length_app. simpl. lia.
Qed.

(** C7, amended.  For a live transaction [t] at [self], and for
    [entries] the stretch of the chain that the walk covers: the whole
    chain for a null [filter], the filters behind the entry of [filter]
    else.
    - If [local_response_sent_] is already set, no filter is invoked and
      the call returns [Continue] after clearing the filter action.
    - Otherwise: if every filter of [entries] passes, the call returns
      [Continue] and clears the filter action.  If [entry] is the first
      filter that does not pass, the filters [post] behind it are not
      invoked: when [entry] has left [local_response_sent_] set, the call
      returns [Continue] whatever the status of [entry] and clears the
      filter action; when not and the status is [StopIteration], the call
      returns [StopIteration] in the state [entry] left.
    - A filter that calls [sendLocalReply] and returns [status] sets the
      flag only with [end_stream] false: then the call returns [Continue]
      whatever [status] is.  With [end_stream] true the reply is sent and
      the flag stays unset, so the walk goes by [status]: on
      [StopIteration] the call returns [StopIteration], on [Continue] the
      walk goes on with the filters behind.
    - Each of the four decoder events walks the chain with a null
      [filter]: an event that is driven again after a [StopIteration] is
      walked from the head of the chain, up to the first filter that
      suspends it. *)
Theorem applyDecoderFilters_spec
    (self : nat) (filter : option nat) (t : ActiveTrans) (cm : ConnectionManager)
    (entries : list nat) :
  heap cm !! self = Some t →
  (filter = None ∧ entries = decoder_filters_ t
   ∨ ∃ i before suspended,
       filter = Some i ∧ decoder_filters_ t = before ++ suspended :: entries
       ∧ length before = i) →
  let run := applyDecoderFilters filter_call self filter cm in
  (local_response_sent_ t = true →
     run = (Ok Continue, upd_heap <[self := cleared t]> cm))
  ∧ (local_response_sent_ t = false →
       (∀ cm1 t1,
          passes self entries cm cm1 →
          heap cm1 !! self = Some t1 →
          run = (Ok Continue, upd_heap <[self := cleared t1]> cm1))
       ∧ (∀ pre entry post cm1 status cm2 t2,
            entries = pre ++ entry :: post →
            passes self pre cm cm1 →
            run_filter self entry cm1 = (Ok status, cm2) →
            heap cm2 !! self = Some t2 →
            (local_response_sent_ t2 = true →
               run = (Ok Continue, upd_heap <[self := cleared t2]> cm2))
            ∧ (local_response_sent_ t2 = false → status = StopIteration →
                 run = (Ok StopIteration, cm2)))
       ∧ (∀ R (HR : DirectResponse R) pre entry post cm1 t1 md
            (response : R) end_stream status,
            entries = pre ++ entry :: post →
            passes self pre cm cm1 →
            heap cm1 !! self = Some t1 →
            metadata_ t1 = Some md →
            run_filter self entry cm1
            = (ActiveTrans_sendLocalReply encode self response end_stream ;;; ret status) cm1 →
            ∃ cm2 t2,
              ActiveTrans_sendLocalReply encode self response end_stream cm1 = (Ok tt, cm2)
              ∧ heap cm2 !! self = Some t2
              ∧ local_reply_calls cm2 = S (local_reply_calls cm1)
              ∧ (end_stream = false →
                   local_response_sent_ t2 = true
                   ∧ run = (Ok Continue, upd_heap <[self := cleared t2]> cm2))
              ∧ (end_stream = true →
                   local_response_sent_ t2 = false
                   ∧ (status = StopIteration → run = (Ok StopIteration, cm2))
                   ∧ (status = Continue → passes self (pre ++ [entry]) cm cm2))))
  ∧ (∀ stage md,
       ∃ cm0 t0,
         ActiveTrans_event filter_call stage self md cm
         = applyDecoderFilters filter_call self None cm0
         ∧ heap cm0 !! self = Some t0
         ∧ decoder_filters_ t0 = decoder_filters_ t
         ∧ local_response_sent_ t0 = local_response_sent_ t
         ∧ filter_action_ t0 = Some stage
         ∧ (local_response_sent_ t = false →
            ∀ pre entry post cm1 cm2 t2,
              decoder_filters_ t = pre ++ entry :: post →
              passes self pre cm0 cm1 →
              run_filter self entry cm1 = (Ok StopIteration, cm2) →
              heap cm2 !! self = Some t2 →
              local_response_sent_ t2 = false →
              ActiveTrans_event filter_call stage self md cm = (Ok StopIteration, cm2))).
Proof.
  intros Ht Hstart%start_entries_spec run. split_and!.
  - intros Hflag. unfold run, applyDecoderFilters.
    erewrite bind_Ok by (by apply deref_Some). rewrite Hflag.
    unfold bind at 1, ret at 1. by apply finish_walk_live.
  - intros Hflag. split_and!.
    + intros cm1 t1 Hp Ht1. rewrite <- Hstart in Hp.
      by eapply applyDecoderFilters_all_pass.
    + intros pre entry post cm1 status cm2 t2 Hsplit Hp Hrun Ht2.
      rewrite <- Hstart in Hsplit. split.
      * intros Hflag2. by eapply applyDecoderFilters_reply_sent.
      * intros Hflag2 ->. by eapply applyDecoderFilters_stop.
    + intros R HR pre entry post cm1 t1 md response end_stream status
        Hsplit Hp Ht1 Hmd Hrun.
      rewrite <- Hstart in Hsplit.
      assert (Hflag1 : local_response_sent_ t1 = false)
        by exact (passes_flag self pre cm cm1 t t1 Ht Hflag Hp Ht1).
      destruct (ActiveTrans_sendLocalReply_flag self t1 md response end_stream cm1 Ht1 Hmd)
        as (cm2 & t2 & Hreply & Ht2 & Hflag2 & Hcalls).
      assert (Hrun' : run_filter self entry cm1 = (Ok status, cm2)).
      { rewrite Hrun. unfold bind. by rewrite Hreply. }
      exists cm2, t2. split_and!; try done.
      * intros ->. split; [done|]. by eapply applyDecoderFilters_reply_sent.
      * intros ->. rewrite Hflag1 in Hflag2. split_and!; [done| |].
        -- intros ->. by eapply applyDecoderFilters_stop.
        -- intros ->. by eapply passes_snoc.
  - intros stage md.
    destruct (ActiveTrans_event_walk stage self md t cm Ht)
      as (cm0 & t0 & Hev & Ht0 & Hchain & Hflag0 & Haction).
    exists cm0, t0. split_and!; try done.
    intros Hflag pre entry post cm1 cm2 t2 Hsplit Hp Hrun Ht2 Hflag2.
    rewrite Hev.
    apply (applyDecoderFilters_stop self None t0 cm0 pre entry post cm1 cm2 t2);
      [exact Ht0|congruence|cbn [start_entries]; congruence
      |exact Hp|exact Hrun|exact Ht2|exact Hflag2].
Qed.

End FilterChain.

Lemma applyDecoderFilters_spec_witness :
  applyDecoderFilters Samples.filter_call 0 None
    (Samples.manager Open Samples.trans_in_chain)
  = (Ok StopIteration, Samples.manager Open Samples.trans_in_chain)
  ∧ ∃ cm2,
      applyDecoderFilters (Samples.replying_filter_call StopIteration) 0 None
        (Samples.manager Open Samples.trans_in_chain)
      = (Ok StopIteration, cm2)
      ∧ local_reply_calls cm2 = 1.
Proof.
  split.
  - pose proof (applyDecoderFilters_spec Samples.encode Samples.filter_call 0 None
                  Samples.trans_in_chain (Samples.manager Open Samples.trans_in_chain)
                  [10; 11; 12] eq_refl (or_introl (conj eq_refl eq_refl))) as (_ & H & _).
    destruct (H eq_refl) as (_ & Hstop & _).
    apply (Hstop [10] 11 [12] (Samples.manager Open Samples.trans_in_chain) StopIteration
                 (Samples.manager Open Samples.trans_in_chain) Samples.trans_in_chain eq_refl).
    + econstructor; [reflexivity|reflexivity|reflexivity|constructor].
    + reflexivity.
    + reflexivity.
    + reflexivity.
    + reflexivity.
  - pose proof (applyDecoderFilters_spec Samples.encode
                  (Samples.replying_filter_call StopIteration) 0 None
                  Samples.trans_in_chain (Samples.manager Open Samples.trans_in_chain)
                  [10; 11; 12] eq_refl (or_introl (conj eq_refl eq_refl))) as (_ & H & _).
    destruct (H eq_refl) as (_ & _ & Hreply).
    destruct (Hreply AppException _ [10] 11 [12]
                (Samples.manager Open Samples.trans_in_chain) Samples.trans_in_chain
                Samples.invite (mkAppException ProtocolError "rejected") true StopIteration
                eq_refl)
      as (cm2 & t2 & _ & _ & Hcalls & _ & Hfinal).
    + econstructor; [reflexivity|reflexivity|reflexivity|constructor].
    + reflexivity.
    + reflexivity.
    + reflexivity.
    + destruct (Hfinal eq_refl) as (_ & Hstop & _).
      exists cm2. split; [exact (Hstop eq_refl)|exact Hcalls].
Defined.

(** Resuming after the suspended filter at position 1 invokes filter 12
    only, and the walk runs to its end. *)
Example applyDecoderFilters_resume :
  applyDecoderFilters Samples.filter_call 0 (Some 1)
    (Samples.manager Open Samples.trans_in_chain)
  = (Ok Continue,
     upd_heap <[0 := cleared Samples.trans_in_chain]>
       (Samples.manager Open Samples.trans_in_chain)).
Proof. vm_compute. reflexivity. Qed.

(** C7, as stated, fails.  In the chain 10, 11, 12, filter 11 answers the
    request with a final local reply ([end_stream] set) and filter 12
    suspends the message.
    - Filter 11 returns [StopIteration] after its reply: the reply is
      written and the connection closed, [local_response_sent_] stays
      unset, and the call returns [StopIteration], not [Continue].
    - Filter 11 returns [Continue] after its reply: the walk does not end
      there; filter 12 is invoked and its [StopIteration] is what the call
      returns.
    - The message of the sample chain, suspended by filter 11, is driven
      again: [messageEnd] is stopped by filter 11 once more, where a walk
      from behind filter 11 would have run to its end.  The event was
      walked from the head of the chain. *)
Lemma applyDecoderFilters_final_reply_keeps_walking :
  (∃ cm' t',
     applyDecoderFilters (Samples.replying_filter_call StopIteration) 0 None
       (Samples.manager Open Samples.trans_in_chain)
     = (Ok StopIteration, cm')
     ∧ local_reply_calls cm' = 1
     ∧ calls (connection cm')
       = [write (Samples.encode (setEP "127.0.0.1" Samples.invite)) true; close FlushWrite]
     ∧ heap cm' !! 0 = Some t'
     ∧ local_response_sent_ t' = false)
  ∧ (∃ cm',
       applyDecoderFilters (Samples.replying_filter_call Continue) 0 None
         (Samples.manager Open Samples.trans_in_chain)
       = (Ok StopIteration, cm')
       ∧ local_reply_calls cm' = 1)
  ∧ (∃ cm1,
       ActiveTrans_messageEnd Samples.filter_call 0
         (Samples.manager Open Samples.trans_in_chain)
       = (Ok StopIteration, cm1)
       ∧ ActiveTrans_messageEnd Samples.filter_call 0 cm1 = (Ok StopIteration, cm1)
       ∧ ∃ cm2, applyDecoderFilters Samples.filter_call 0 (Some 1) cm1 = (Ok Continue, cm2)).
Proof.
  split_and!.
  - eexists _, _. split; [vm_compute; reflexivity|]. by split_and!.
  - eexists. split; [vm_compute; reflexivity|]. done.
  - eexists. split; [vm_compute; reflexivity|].
    split; [vm_compute; reflexivity|].
    eexists. vm_compute. reflexivity.
Qed.

End ConnManagerFacts.


(** ** More on [setTransactionId] *)

Module MetadataMore.
Import StringView StringViewFacts Metadata MetadataFacts.

(** The offset [find] returns is the only one that is a first
    occurrence. *)
Lemma find_first s needle i :
  occurs_at needle s i →
  (∀ j, (j < i)%nat → ¬ occurs_at needle s j) →
  find s needle = Some i.
Proof.
  intros Hocc Hmin. destruct (find s needle) as [i'|] eqn:F.
  - apply find_Some in F as [Hocc' Hmin']. f_equal.
    destruct (Nat.lt_trichotomy i' i) as [Hlt|[Heq|Hgt]]; [|done|].
    + by destruct (Hmin i' Hlt).
    + by destruct (Hmin' i Hgt).
  - by destruct (find_None _ _ F i).
Qed.

(** A header value splits in one way only into a token free of stop
    characters and a rest that is empty or begins with one. *)
Lemma token_split_unique chars tid post tid' post' :
  tid +:+ post = tid' +:+ post' →
  none_of chars tid = true → stops_at chars post →
  none_of chars tid' = true → stops_at chars post' →
  tid = tid'.
Proof.
  revert tid'; induction tid as [|c tid IH]; intros tid' Heq Hn Hs Hn' Hs'.
  - destruct tid' as [|c' tid']; [done|]. sapp.
    destruct Hs as [->|(d & r & -> & Hd)]; [done|].
    injection Heq as -> ->.
    apply andb_true_iff in Hn' as [Hc _]. by rewrite Hd in Hc.
  - destruct tid' as [|c' tid']; sapp.
    + destruct Hs' as [->|(d & r & -> & Hd)]; [done|].
      injection Heq as -> _.
      apply andb_true_iff in Hn as [Hc _]. by rewrite Hd in Hc.
    + injection Heq as -> Heq.
      apply andb_true_iff in Hn as [_ Hn]. apply andb_true_iff in Hn' as [_ Hn'].
      f_equal. by eapply IH.
Qed.

(** X1.  Round trip: a header built as [pre ++ "branch=" ++ tid ++ post],
    where ["branch="] does not occur before offset [length pre], [tid] holds
    neither [;] nor [>] and [post] is empty or begins with one of them,
    yields exactly [tid] as the transaction id. *)
Theorem setTransactionId_round_trip (pre tid post : string) (m : MessageMetadata) :
  (∀ j, (j < String.length pre)%nat
        → ¬ occurs_at "branch=" (pre +:+ "branch=" +:+ tid +:+ post) j) →
  none_of ";>" tid = true →
  stops_at ";>" post →
  transactionId (setTransactionId (pre +:+ "branch=" +:+ tid +:+ post) m) = Some tid.
Proof.
  intros Hmin Hn Hs. unfold setTransactionId.
  rewrite (find_first _ branch_key (String.length pre)); [|by eexists _, _|done].
  destruct (substr_token pre branch_key (tid +:+ post))
    as (tid' & post' & Heq & Hn' & Hs' & Hsub).
  cbv zeta in Hsub. unfold branch_key in *. rewrite Hsub. simpl. f_equal. symmetry.
  by eapply token_split_unique.
Qed.

Lemma setTransactionId_round_trip_witness :
  transactionId (setTransactionId "Via: SIP/2.0/TCP d;branch=z9hG4bK-1;rport" Samples.invite)
  = Some "z9hG4bK-1".
Proof.
  apply (setTransactionId_round_trip "Via: SIP/2.0/TCP d;" "z9hG4bK-1" ";rport").
  - apply (find_Some "Via: SIP/2.0/TCP d;branch=z9hG4bK-1;rport" "branch=" 19).
    reflexivity.
  - reflexivity.
  - right. by exists ";"%char, "rport".
Defined.

(** X2.  Headers are taken in turn: a later header that holds ["branch="]
    replaces the id an earlier header left, and a later header without it
    keeps that id. *)
Theorem setTransactionId_twice (data1 data2 : string) (m : MessageMetadata) :
  ((∃ i, occurs_at "branch=" data2 i) →
     setTransactionId data2 (setTransactionId data1 m) = setTransactionId data2 m)
  ∧ ((∀ i, ¬ occurs_at "branch=" data2 i) →
       setTransactionId data2 (setTransactionId data1 m) = setTransactionId data1 m).
Proof.
  split.
  - intros [i Hocc]. unfold setTransactionId at 1 3.
    destruct (find data2 branch_key) eqn:F.
    + unfold setTransactionId. by destruct (find data1 branch_key).
    + by destruct (find_None _ _ F i).
  - intros Hnone. unfold setTransactionId at 1.
    destruct (find data2 branch_key) as [i|] eqn:F; [|done].
    apply find_Some in F as [Hocc _]. by destruct (Hnone i).
Qed.

End MetadataMore.

(** ** More on the per-worker tables *)

Module RouterMore.
Import Router RouterFacts.

Lemma getTransaction_present k item tl :
  transaction_info_map_ tl !! k = Some item → getTransaction k tl = (Ok item, tl).
Proof. intros Hk. unfold getTransaction, bind, get, map_at. by rewrite Hk. Qed.

Lemma emplace_lookup {V} k (v : V) (m : gmap string V) :
  emplace k v m !! k = Some (default v (m !! k)).
Proof.
  unfold emplace. destruct (m !! k) eqn:E; simpl; [done|apply lookup_insert_eq].
Qed.

Lemma emplace_present {V} k (v v0 : V) (m : gmap string V) :
  m !! k = Some v0 → emplace k v m = m.
Proof. unfold emplace. by intros ->. Qed.

Lemma emplace_absent {V} k (v : V) (m : gmap string V) :
  m !! k = None → emplace k v m = <[k := v]> m.
Proof. unfold emplace. by intros ->. Qed.

(** X3.  Insert and look up.  Looking a transaction up right after
    [insertTransaction] returns the new item, not tombstoned, when the id was
    not in the map; when the id was there already, the insertion is dropped
    and the lookup returns the old item, the tables staying as they were. *)
Theorem insertTransaction_then_get
    (k : string) (a : nat) (u : option nat) (tl : ThreadLocalTransactionInfo) :
  (transaction_info_map_ tl !! k = None →
     (insertTransaction k a u ;;; getTransaction k) tl
     = (Ok (mkTransactionInfoItem a u false),
        upd_transaction_info_map <[k := mkTransactionInfoItem a u false]> tl))
  ∧ (∀ item0, transaction_info_map_ tl !! k = Some item0 →
       ∃ tl', (insertTransaction k a u ;;; getTransaction k) tl = (Ok item0, tl')
              ∧ transaction_info_map_ tl' = transaction_info_map_ tl
              ∧ upstream_request_map_ tl' = upstream_request_map_ tl
              ∧ audit_timer_ tl' = audit_timer_ tl
              ∧ transaction_timeout_ tl' = transaction_timeout_ tl).
Proof.
  split.
  - intros Hk. unfold bind at 1, insertTransaction, modify.
    rewrite (getTransaction_present k (mkTransactionInfoItem a u false)).
    + unfold upd_transaction_info_map. by rewrite emplace_absent.
    + cbn [transaction_info_map_ upd_transaction_info_map].
      rewrite emplace_lookup, Hk. done.
  - intros item0 Hk. eexists. split.
    + unfold bind at 1, insertTransaction, modify.
      apply getTransaction_present.
      cbn [transaction_info_map_ upd_transaction_info_map].
      rewrite emplace_lookup, Hk. done.
    + cbn [transaction_info_map_ upstream_request_map_ audit_timer_ transaction_timeout_
           upd_transaction_info_map].
      by rewrite (emplace_present _ _ item0).
Qed.

Lemma deleteTransaction_present k item tl :
  transaction_info_map_ tl !! k = Some item →
  deleteTransaction k tl
  = (Ok tt, upd_transaction_info_map <[k := toDelete item]> tl).
Proof.
  intros Hk. unfold deleteTransaction, bind, get, map_at, modify. by rewrite Hk.
Qed.

(** X4.  Tombstones.  [deleteTransaction] on an id that is not in the map
    throws [out_of_range] and changes nothing.  On an id that is there it
    sets the item's [deleted] flag and keeps the entry: a lookup right after
    still returns the item, now tombstoned; and deleting twice leaves the
    same tables as deleting once. *)
Theorem deleteTransaction_tombstones (k : string) (tl : ThreadLocalTransactionInfo) :
  (transaction_info_map_ tl !! k = None →
     deleteTransaction k tl = (Throw out_of_range, tl))
  ∧ (∀ item, transaction_info_map_ tl !! k = Some item →
       (deleteTransaction k ;;; getTransaction k) tl
       = (Ok (toDelete item), upd_transaction_info_map <[k := toDelete item]> tl)
       ∧ deleted (toDelete item) = true
       ∧ active_trans_ (toDelete item) = active_trans_ item
       ∧ upstream_request_ (toDelete item) = upstream_request_ item
       ∧ (deleteTransaction k ;;; deleteTransaction k) tl = deleteTransaction k tl).
Proof.
  split.
  - intros Hk. unfold deleteTransaction, bind, get, map_at, throw. by rewrite Hk.
  - intros item Hk. split_and!; try done.
    + unfold bind at 1. rewrite (deleteTransaction_present k item) by done.
      unfold getTransaction, bind, get, map_at. simpl. by rewrite lookup_insert_eq.
    + unfold bind at 1. rewrite (deleteTransaction_present k item) by done.
      rewrite (deleteTransaction_present k (toDelete item))
        by (simpl; apply lookup_insert_eq).
      unfold upd_transaction_info_map. simpl. by rewrite insert_insert_eq.
Qed.

Section Sweeps.
Context {World : Type} (onReset : nat → M World unit) (startTime : nat → Z)
        (ticks_per_ms : Z).

Local Abbreviation audit := (auditTimerAction World onReset startTime ticks_per_ms).
Local Abbreviation sweep_resets p1 tl :=
  (reset_each World onReset
     (reset_targets startTime ticks_per_ms p1 (transaction_timeout_ tl)
        (map_to_list (transaction_info_map_ tl)))).

(** X5.  A tombstone lives until the next sweep that returns.  After
    [deleteTransaction] on an id that is in the map, a firing of the audit
    timer in which every reset returns erases the entry, whatever its age:
    a lookup then throws [out_of_range].  Entries of other ids that are not
    tombstoned are still there. *)
Theorem tombstone_swept
    (k : string) (item : TransactionInfoItem) (tl : ThreadLocalTransactionInfo) (p1 : Z) :
  transaction_info_map_ tl !! k = Some item →
  ∃ tl1,
    deleteTransaction k tl = (Ok tt, tl1)
    ∧ transaction_info_map_ tl1 !! k = Some (toDelete item)
    ∧ ∀ w w', sweep_resets p1 tl1 w = (Ok tt, w') →
        ∃ tl2,
          audit p1 (tl1, w) = (Ok tt, (tl2, w'))
          ∧ transaction_info_map_ tl2 !! k = None
          ∧ getTransaction k tl2 = (Throw out_of_range, tl2)
          ∧ (∀ k' item', k' ≠ k → transaction_info_map_ tl !! k' = Some item' →
               deleted item' = false →
               transaction_info_map_ tl2 !! k' = Some item').
Proof.
  intros Hk. eexists. split; [by apply deleteTransaction_present|].
  split; [simpl; apply lookup_insert_eq|].
  intros w w' Hr.
  set (tl1 := upd_transaction_info_map <[k := toDelete item]> tl) in *.
  set (tl2 := enableTimer audit_period
                (upd_transaction_info_map
                   (λ m, foldl erase_tombstoned m (map_to_list (transaction_info_map_ tl1)))
                   tl1)).
  exists tl2. split; [by apply auditTimerAction_Ok|].
  assert (Hmap : ∀ k',
    transaction_info_map_ tl2 !! k'
    = item' ← <[k := toDelete item]> (transaction_info_map_ tl) !! k';
      if deleted item' then None else Some item').
  { intros k'. apply erase_tombstoned_map_to_list. }
  assert (Hgone : transaction_info_map_ tl2 !! k = None).
  { rewrite Hmap, lookup_insert_eq. done. }
  clearbody tl2.
  split_and!.
  - exact Hgone.
  - unfold getTransaction, bind, get, map_at, throw. by rewrite Hgone.
  - intros k' item' Hne Hk' Hd. rewrite Hmap.
    rewrite lookup_insert_ne by done. rewrite Hk'. simpl. by rewrite Hd.
Qed.

(** X6.  A tombstoned id cannot be taken again before the sweep.
    [insertTransaction] on an id that was tombstoned and not yet swept is
    dropped: the entry keeps the old transaction and its tombstone, and a
    sweep in which every reset returns erases it, so the new transaction
    ends up without an entry. *)
Theorem tombstone_blocks_insert
    (k : string) (item : TransactionInfoItem) (a : nat) (u : option nat)
    (tl : ThreadLocalTransactionInfo) (p1 : Z) :
  transaction_info_map_ tl !! k = Some item →
  ∃ tl2,
    (deleteTransaction k ;;; insertTransaction k a u) tl = (Ok tt, tl2)
    ∧ transaction_info_map_ tl2 !! k = Some (toDelete item)
    ∧ ∀ w w', sweep_resets p1 tl2 w = (Ok tt, w') →
        ∃ tl3, audit p1 (tl2, w) = (Ok tt, (tl3, w'))
               ∧ transaction_info_map_ tl3 !! k = None.
Proof.
  intros Hk. eexists. split_and!.
  - unfold bind at 1. rewrite (deleteTransaction_present k item) by done.
    unfold insertTransaction, modify. reflexivity.
  - simpl. unfold emplace. rewrite lookup_insert_eq. apply lookup_insert_eq.
  - intros w w' Hr. eexists. split; [by apply auditTimerAction_Ok|].
    etransitivity; [apply erase_tombstoned_map_to_list|].
    cbn [transaction_info_map_ upd_transaction_info_map].
    rewrite (emplace_present k _ (toDelete item)) by apply lookup_insert_eq.
    by rewrite lookup_insert_eq.
Qed.

End Sweeps.

Lemma tombstone_swept_witness :
  ∃ tl2,
    auditTimerAction nat MoreSamples.count_reset MoreSamples.startTime
      MoreSamples.ticks_per_ms 100
      (upd_transaction_info_map
         <["z9hG4bK-1" := toDelete (mkTransactionInfoItem 0 None false)]>
         MoreSamples.tables, 0)
    = (Ok tt, (tl2, 0))
    ∧ transaction_info_map_ tl2 !! "z9hG4bK-1" = None.
Proof.
  destruct (tombstone_swept MoreSamples.count_reset MoreSamples.startTime
              MoreSamples.ticks_per_ms "z9hG4bK-1"
              (mkTransactionInfoItem 0 None false) MoreSamples.tables 100 eq_refl)
    as (tl1 & Hdel & _ & Hsweep).
  rewrite (deleteTransaction_present "z9hG4bK-1" (mkTransactionInfoItem 0 None false))
    in Hdel by reflexivity.
  injection Hdel as <-.
  destruct (Hsweep 0 0 eq_refl) as (tl2 & Hrun & Hgone & _).
  exists tl2. split; [exact Hrun|exact Hgone].
Defined.

Lemma tombstone_blocks_insert_witness :
  ∃ tl2 tl3,
    (deleteTransaction "z9hG4bK-1" ;;; insertTransaction "z9hG4bK-1" 7 None)
      MoreSamples.tables = (Ok tt, tl2)
    ∧ transaction_info_map_ tl2 !! "z9hG4bK-1"
      = Some (mkTransactionInfoItem 0 None true)
    ∧ auditTimerAction nat MoreSamples.count_reset MoreSamples.startTime
        MoreSamples.ticks_per_ms 100 (tl2, 0)
      = (Ok tt, (tl3, 0))
    ∧ transaction_info_map_ tl3 !! "z9hG4bK-1" = None.
Proof.
  destruct (tombstone_blocks_insert MoreSamples.count_reset MoreSamples.startTime
              MoreSamples.ticks_per_ms
              "z9hG4bK-1" (mkTransactionInfoItem 0 None false) 7 None
              MoreSamples.tables 100 eq_refl)
    as (tl2 & Hrun & Hk & Hsweep).
  assert (Hresets : reset_each nat MoreSamples.count_reset
                      (reset_targets MoreSamples.startTime MoreSamples.ticks_per_ms 100
                         (transaction_timeout_ tl2)
                         (map_to_list (transaction_info_map_ tl2))) 0
                    = (Ok tt, 0)).
  { vm_compute in Hrun. injection Hrun as <-. vm_compute. reflexivity. }
  destruct (Hsweep 0 0 Hresets) as (tl3 & Hrun3 & Hgone).
  exists tl2, tl3. split; [exact Hrun|]. split; [exact Hk|].
  split; [exact Hrun3|exact Hgone].
Defined.

(** *** Sweeps over the transactions of one connection manager *)





Local Abbreviation manager_resets := (reset_each ConnManager.ConnectionManager ConnManager.onReset).






(** X8.  When the difference of the two tick counts fits in 64 bits and
    the timeout is positive, the comparison of the truncated millisecond
    count that the sweep makes is the exact one: an entry counts as timed
    out exactly when its age in ticks has reached the timeout in
    milliseconds times the ticks of a millisecond. *)
Theorem timed_out_is_exact
    (startTime : nat → Z) (ticks_per_ms p1 timeout : Z) (item : TransactionInfoItem) :
  (0 < ticks_per_ms)%Z →
  (0 < timeout)%Z →
  (- 2 ^ 63 ≤ p1 - timestamp startTime item < 2 ^ 63)%Z →
  timed_out startTime ticks_per_ms p1 timeout item = true
  ↔ (timeout * ticks_per_ms ≤ p1 - timestamp startTime item)%Z.
Proof.
  intros Hticks Hpos Hrange. unfold timed_out, diff_count, duration_cast_ms.
  rewrite wrap64_in_range by done. rewrite Z.leb_le.
  set (age := (p1 - timestamp startTime item)%Z).
  destruct (Z.le_gt_cases 0 age) as [Hage|Hage].
  - rewrite Z.quot_div_nonneg by lia. split; intros H.
    + pose proof (Z.mul_div_le age ticks_per_ms ltac:(lia)). nia.
    + apply Z.div_le_lower_bound; lia.
  - split; intros H; [|nia].
    pose proof (Z.quot_opp_l age ticks_per_ms ltac:(lia)) as Hq.
    pose proof (Z.quot_pos (- age) ticks_per_ms ltac:(lia) ltac:(lia)). lia.
Qed.

Lemma timed_out_is_exact_witness :
  timed_out MoreSamples.startTime 1000000 499999999 500 (mkTransactionInfoItem 0 None false)
  = true
  ↔ (500 * 1000000 ≤ 499999999 - 0)%Z.
Proof.
  apply (timed_out_is_exact MoreSamples.startTime 1000000 499999999 500
           (mkTransactionInfoItem 0 None false)); [lia|lia|].
  change (timestamp MoreSamples.startTime (mkTransactionInfoItem 0 None false)) with 0%Z.
  lia.
Defined.

(** Outside that range the comparison is not the exact one: for a
    transaction started one tick before the epoch and a sweep at the last
    tick the clock can count, the difference wraps to a negative count and
    the entry does not count as timed out. *)
Example timed_out_wraps :
  timed_out (λ _, (-1)%Z) 1000000 (2 ^ 63 - 1) 500 (mkTransactionInfoItem 0 None false)
  = false
  ∧ (500 * 1000000 ≤ (2 ^ 63 - 1) - (-1))%Z.
Proof. split; [by vm_compute|lia]. Qed.

(** X9.  The upstream-request map keeps the first request stored for a
    host.  After [insertUpstreamRequest host p], [getUpstreamRequest host]
    returns [p] when the host was new and the request stored earlier when
    it was not; after [deleteUpstreamRequest host] it returns [nullptr]; and
    none of the three touches the entry of another host. *)
Theorem upstream_request_first_wins
    (host : string) (p : option nat) (tl : ThreadLocalTransactionInfo) :
  (∃ tl', (insertUpstreamRequest host p ;;; getUpstreamRequest host) tl
          = (Ok (default p (upstream_request_map_ tl !! host)), tl')
          ∧ ∀ other, other ≠ host →
              upstream_request_map_ tl' !! other = upstream_request_map_ tl !! other)
  ∧ (∃ tl', (deleteUpstreamRequest host ;;; getUpstreamRequest host) tl = (Ok None, tl')
            ∧ ∀ other, other ≠ host →
                upstream_request_map_ tl' !! other = upstream_request_map_ tl !! other).
Proof.
  split; eexists; split.
  - unfold bind, insertUpstreamRequest, modify. rewrite getUpstreamRequest_total.
    simpl. unfold emplace.
    destruct (upstream_request_map_ tl !! host) as [q|] eqn:Hq; simpl.
    + by rewrite Hq.
    + by rewrite lookup_insert_eq.
  - intros other Hne. simpl. unfold emplace.
    destruct (upstream_request_map_ tl !! host); [done|].
    by rewrite lookup_insert_ne.
  - apply getUpstreamRequest_after_delete.
  - intros other Hne. simpl. by rewrite lookup_delete_ne.
Qed.

End RouterMore.

(** ** More on the connection manager *)

Module ConnManagerMoreFacts.
Import Network Metadata ConnManager ConnManagerMore ConnManagerFacts.
Local Open Scope list_scope.

(** *** Resets *)

(** X10.  [onReset] cannot be repeated.  On a live transaction that is
    indexed under its own id, the first [onReset] hands it to the
    deferred-delete list and erases it from the index; a second [onReset] on
    the same transaction throws [out_of_range] and leaves the state the
    first one produced. *)
Theorem onReset_twice (p : nat) (t : ActiveTrans) (cm : ConnectionManager) :
  heap cm !! p = Some t →
  transactions_ cm !! transactionId_of t = Some p →
  let cm1 := upd_transactions (delete (transactionId_of t))
               (upd_deferred_delete (λ l, l ++ [p]) cm) in
  onReset p cm = (Ok tt, cm1)
  ∧ onReset p cm1 = (Throw out_of_range, cm1)
  ∧ (onReset p ;;; onReset p) cm = (Throw out_of_range, cm1).
Proof.
  intros Hp Hk cm1.
  assert (H1 : onReset p cm = (Ok tt, cm1)) by (by apply onReset_indexed).
  assert (H2 : onReset p cm1 = (Throw out_of_range, cm1)).
  { unfold onReset, doDeferredTransDestroy.
    erewrite bind_Ok by (by apply deref_Some).
    unfold bind, get, map_at, throw. cbn [transactions_ cm1 upd_transactions].
    by rewrite lookup_delete_eq. }
  split_and!; [done|done|]. unfold bind. by rewrite H1.
Qed.

Lemma onReset_twice_witness :
  (onReset 0 ;;; onReset 0) (Samples.manager Open (Samples.trans_awaiting None))
  = (Throw out_of_range,
     upd_transactions (delete "z9hG4bK-1")
       (upd_deferred_delete (λ l, l ++ [0])
          (Samples.manager Open (Samples.trans_awaiting None)))).
Proof.
  apply (onReset_twice 0 (Samples.trans_awaiting None)
           (Samples.manager Open (Samples.trans_awaiting None)) eq_refl eq_refl).
Defined.

(** X11.  Every connection event resets every transaction.  On a manager
    whose transactions are indexed under their own ids, [onEvent] empties
    the index and issues no call on the connection, whatever the event; the
    resets are counted as local for [LocalClose] and as remote for every
    other event, [Connected] included. *)
Theorem onEvent_resets (event : ConnectionEvent) (cm : ConnectionManager) :
  indexed_by_id cm →
  ∃ cm',
    onEvent event cm = (Ok tt, cm')
    ∧ transactions_ cm' = ∅
    ∧ connection cm' = connection cm
    ∧ deferred_delete cm' = deferred_delete cm ++ (map_to_list (transactions_ cm)).*2
    ∧ cx_destroy_local_with_active_rq_ (stats_ cm')
      = (match event with LocalClose => size (transactions_ cm) | _ => 0 end)
        + cx_destroy_local_with_active_rq_ (stats_ cm)
    ∧ cx_destroy_remote_with_active_rq_ (stats_ cm')
      = (match event with LocalClose => 0 | _ => size (transactions_ cm) end)
        + cx_destroy_remote_with_active_rq_ (stats_ cm).
Proof.
  intros Hwf. eexists. split; [by apply resetAllTrans_spec|].
  cbn [transactions_ connection deferred_delete stats_].
  split_and!; try done; destruct event; cbn [reset_counter];
    first [apply iter_inc_local | apply iter_inc_remote].
Qed.

Lemma onEvent_resets_witness :
  ∃ cm',
    onEvent Connected (Samples.manager Open (Samples.trans_awaiting None)) = (Ok tt, cm')
    ∧ transactions_ cm' = ∅
    ∧ cx_destroy_remote_with_active_rq_ (stats_ cm') = 1.
Proof.
  destruct (onEvent_resets Connected (Samples.manager Open (Samples.trans_awaiting None))
              (sample_manager_indexed Open))
    as (cm' & Hrun & Hempty & _ & _ & _ & Hremote).
  exists cm'. split_and!; [done|done|].
  rewrite Hremote. simpl. by rewrite map_size_singleton.
Defined.

Section IngressFacts.
Variable decoder_onData : bool → M ConnectionManager unit.
Variable request_buffer_move : Buffer → M ConnectionManager unit.

(** X12.  [onData] always answers [StopIteration].  When the bytes are
    taken in and the decoder returns normally, a call without [end_stream]
    does nothing more; a call with [end_stream] (the downstream half-closed)
    then resets every transaction the decoder left indexed, counting each as
    a remote reset and none as a local one, and closes the connection with
    [FlushWrite] as its last call. *)
Theorem onData_half_close (data : Buffer) (cm cm0 cm1 : ConnectionManager) :
  request_buffer_move data cm = (Ok tt, cm0) →
  dispatch decoder_onData cm0 = (Ok tt, cm1) →
  indexed_by_id cm1 →
  onData decoder_onData request_buffer_move data false cm = (Ok NetworkStopIteration, cm1)
  ∧ ∃ cm2,
      onData decoder_onData request_buffer_move data true cm = (Ok NetworkStopIteration, cm2)
      ∧ transactions_ cm2 = ∅
      ∧ calls (connection cm2) = calls (connection cm1) ++ [close FlushWrite]
      ∧ deferred_delete cm2 = deferred_delete cm1 ++ (map_to_list (transactions_ cm1)).*2
      ∧ cx_destroy_remote_with_active_rq_ (stats_ cm2)
        = size (transactions_ cm1) + cx_destroy_remote_with_active_rq_ (stats_ cm1)
      ∧ cx_destroy_local_with_active_rq_ (stats_ cm2)
        = cx_destroy_local_with_active_rq_ (stats_ cm1).
Proof.
  intros Hmove Hdispatch Hwf. split.
  - unfold onData. erewrite bind_Ok by done. erewrite bind_Ok by done. done.
  - eexists. split.
    + unfold onData. erewrite bind_Ok by done. erewrite bind_Ok by done.
      erewrite bind_Ok; [done|].
      erewrite bind_Ok by (by apply resetAllTrans_spec). done.
    + cbn [transactions_ connection deferred_delete stats_ upd_connection call calls
           reset_counter].
      split_and!; try done; apply iter_inc_remote.
Qed.

End IngressFacts.

Lemma onData_half_close_witness :
  ∃ cm2,
    onData Samples.decoder_idle MoreSamples.buffer_move "BYE" true
      (Samples.manager Open (Samples.trans_awaiting None)) = (Ok NetworkStopIteration, cm2)
    ∧ transactions_ cm2 = ∅
    ∧ calls (connection cm2) = [close FlushWrite].
Proof.
  destruct (onData_half_close Samples.decoder_idle MoreSamples.buffer_move "BYE"
              (Samples.manager Open (Samples.trans_awaiting None))
              (Samples.manager Open (Samples.trans_awaiting None))
              (Samples.manager Open (Samples.trans_awaiting None))
              eq_refl eq_refl (sample_manager_indexed Open))
    as (_ & cm2 & Hrun & Hempty & Hcalls & _).
  exists cm2. split; [exact Hrun|]. split; [exact Hempty|exact Hcalls].
Defined.

(** *** Local replies *)

Section LocalReplies.
Variable encode : MessageMetadata → Buffer.

Lemma set_metadata_same t md : metadata_ t = Some md → set_metadata (Some md) t = t.
Proof. destruct t; simpl. by intros ->. Qed.

(** X13.  A local reply on a closed connection.  Nothing is sent:
    [ActiveTrans::sendLocalReply] issues no call and moves no counter.  Yet
    with [end_stream] false the transaction is marked
    [local_response_sent_] all the same; with [end_stream] true the
    transaction is left as it was. *)
Theorem sendLocalReply_closed_marks_sent
    {R} `{DirectResponse R} (self : nat) (t : ActiveTrans) (md : MessageMetadata)
    (response : R) (cm : ConnectionManager) :
  heap cm !! self = Some t →
  metadata_ t = Some md →
  state (connection cm) = Closed →
  (∃ cm', ActiveTrans_sendLocalReply encode self response false cm = (Ok tt, cm')
          ∧ connection cm' = connection cm ∧ stats_ cm' = stats_ cm
          ∧ heap cm' !! self = Some (set_local_response_sent true t))
  ∧ (∃ cm', ActiveTrans_sendLocalReply encode self response true cm = (Ok tt, cm')
            ∧ connection cm' = connection cm ∧ stats_ cm' = stats_ cm
            ∧ heap cm' !! self = Some t).
Proof.
  intros Ht Hmd Hc. split; eexists; split.
  - unfold ActiveTrans_sendLocalReply.
    erewrite bind_Ok by (by apply deref_Some). rewrite Hmd.
    unfold bind at 1, nonnull at 1, ret at 1.
    erewrite bind_Ok by (by apply sendLocalReply_closed).
    erewrite bind_Ok by (by apply store_Some).
    apply store_Some. apply lookup_insert_eq.
  - cbn [connection stats_ heap upd_heap upd_local_reply_calls].
    split_and!; [done|done|]. rewrite lookup_insert_eq.
    by rewrite set_metadata_same.
  - unfold ActiveTrans_sendLocalReply.
    erewrite bind_Ok by (by apply deref_Some). rewrite Hmd.
    unfold bind at 1, nonnull at 1, ret at 1.
    erewrite bind_Ok by (by apply sendLocalReply_closed).
    erewrite bind_Ok by (by apply store_Some). done.
  - cbn [connection stats_ heap upd_heap upd_local_reply_calls].
    split_and!; [done|done|]. rewrite lookup_insert_eq.
    by rewrite set_metadata_same.
Qed.

Lemma sendLocalReply_exception_open md (ex : AppException) end_stream cm :
  state (connection cm) ≠ Closed →
  sendLocalReply encode md ex end_stream cm
  = (Ok (setEP (getLocalIp cm) md),
     upd_stats (inc response_exception)
       ((if end_stream then upd_connection (call (close FlushWrite)) else id)
          (upd_connection (call (write (encode (setEP (getLocalIp cm) md)) end_stream))
             (upd_local_reply_calls S cm)))).
Proof.
  intros Hc. unfold sendLocalReply, bind, modify, get. simpl.
  rewrite decide_False by done. by destruct end_stream.
Qed.

(** X14.  The local reply for an application exception.  On a connection
    that is not closed, [sendLocalReply] for an [AppException] writes the
    encoding of the metadata it was given with the EP set to the local IP,
    follows it with [close(FlushWrite)] exactly when [end_stream] is set,
    and counts one [response_exception] and nothing else.  Neither the type
    nor the text of the exception has any influence on what the call
    does. *)
Theorem local_reply_for_exception
    (md : MessageMetadata) (ex : AppException) (end_stream : bool) (cm : ConnectionManager) :
  state (connection cm) ≠ Closed →
  (∃ cm',
     sendLocalReply encode md ex end_stream cm = (Ok (setEP (getLocalIp cm) md), cm')
     ∧ calls (connection cm')
       = calls (connection cm)
         ++ write (encode (setEP (getLocalIp cm) md)) end_stream
            :: (if end_stream then [close FlushWrite] else [])
     ∧ stats_ cm' = inc response_exception (stats_ cm)
     ∧ transactions_ cm' = transactions_ cm
     ∧ heap cm' = heap cm)
  ∧ (∀ ex' : AppException,
       sendLocalReply encode md ex' end_stream cm = sendLocalReply encode md ex end_stream cm).
Proof.
  intros Hc. split; [|done].
  unfold sendLocalReply, bind, modify, get. simpl.
  rewrite decide_False by done.
  destruct end_stream; simpl; eexists; (split; [reflexivity|]); simpl.
  - rewrite <- app_assoc. by split_and!.
  - by split_and!.
Qed.

End LocalReplies.

Lemma sendLocalReply_closed_marks_sent_witness :
  ∃ cm',
    ActiveTrans_sendLocalReply Samples.encode 0
      (mkAppException ProtocolError "no route") false
      (Samples.manager Closed (Samples.trans_awaiting (Some Samples.invite))) = (Ok tt, cm')
    ∧ calls (connection cm') = []
    ∧ local_response_sent_ <$> heap cm' !! 0 = Some true.
Proof.
  destruct (proj1 (sendLocalReply_closed_marks_sent Samples.encode 0
              (Samples.trans_awaiting (Some Samples.invite)) Samples.invite
              (mkAppException ProtocolError "no route")
              (Samples.manager Closed (Samples.trans_awaiting (Some Samples.invite)))
              eq_refl eq_refl eq_refl))
    as (cm' & Hrun & Hconn & _ & Hheap).
  exists cm'. split_and!; [done| |].
  - by rewrite Hconn.
  - by rewrite Hheap.
Defined.

Lemma local_reply_for_exception_witness :
  ∃ cm',
    sendLocalReply Samples.encode Samples.invite
      (mkAppException ProtocolError "no healthy upstream") true
      (Samples.manager Open (Samples.trans_awaiting None))
    = (Ok (setEP "127.0.0.1" Samples.invite), cm')
    ∧ calls (connection cm') = [write ";ep=127.0.0.1" true; close FlushWrite]
    ∧ response_exception_ (stats_ cm') = 1.
Proof.
  destruct (proj1 (local_reply_for_exception Samples.encode Samples.invite
              (mkAppException ProtocolError "no healthy upstream") true
              (Samples.manager Open (Samples.trans_awaiting None)) ltac:(done)))
    as (cm' & Hrun & Hcalls & Hstats & _).
  exists cm'. split_and!; [done| |].
  - by rewrite Hcalls.
  - by rewrite Hstats.
Defined.

(** *** The response path *)

Section ResponsePath.
Variable encode : MessageMetadata → Buffer.
Variable ResponseDecoder_transportBegin : MessageMetadata → FilterStatus.

Local Abbreviation onData_ := (ResponseDecoder_onData encode ResponseDecoder_transportBegin).
Local Abbreviation upstreamData_ := (upstreamData encode ResponseDecoder_transportBegin).

(** X15.  An upstream response on an open connection is forwarded.  For a
    live transaction with a response decoder, a connection that is not
    closed and a [transportBegin] that continues, [upstreamData] returns
    [Complete]; its one call on the connection is the write of the response
    encoded with the EP set to the local IP; it counts one [response]; and
    the transaction stays indexed and is not handed to deferred deletion. *)
Theorem upstreamData_forwards
    (self : nat) (t : ActiveTrans) (rd : ResponseDecoder) (metadata : MessageMetadata)
    (cm : ConnectionManager) :
  heap cm !! self = Some t →
  response_decoder_ t = Some rd →
  state (connection cm) ≠ Closed →
  ResponseDecoder_transportBegin metadata = Continue →
  ∃ cm',
    upstreamData_ self metadata cm = (Ok Complete, cm')
    ∧ calls (connection cm')
      = calls (connection cm) ++ [write (encode (setEP (getLocalIp cm) metadata)) false]
    ∧ stats_ cm' = inc response (stats_ cm)
    ∧ transactions_ cm' = transactions_ cm
    ∧ deferred_delete cm' = deferred_delete cm
    ∧ local_reply_calls cm' = local_reply_calls cm
    ∧ heap cm' !! self = Some (received (setEP (getLocalIp cm) metadata) t).
Proof.
  intros Ht Hrd Hc Hcont. eexists. split.
  - unfold upstreamData, try_catch. erewrite bind_Ok; cycle 1.
    { unfold ResponseDecoder_onData.
      erewrite bind_Ok by (by apply deref_Some). rewrite Hrd.
      unfold bind at 1, nonnull at 1, ret at 1.
      erewrite bind_Ok by (by apply store_Some).
      rewrite Hcont. simpl.
      erewrite bind_Ok; cycle 1.
      { unfold ResponseDecoder_transportEnd.
        erewrite bind_Ok by (apply deref_Some, lookup_insert_eq).
        cbn [response_decoder_ received set_response_decoder nonnull].
        unfold bind at 1, ret at 1.
        unfold bind at 1, get at 1.
        cbn [connection upd_heap]. rewrite decide_False by done.
        cbn [rd_metadata_ nonnull]. unfold bind at 1, ret at 1.
        erewrite bind_Ok by (apply store_Some, lookup_insert_eq).
        unfold bind, modify, ret. reflexivity. }
      reflexivity. }
    reflexivity.
  - cbn [connection stats_ heap transactions_ deferred_delete local_reply_calls
         upd_heap upd_connection upd_stats call calls].
    split_and!; try done.
    rewrite lookup_insert_eq. done.
Qed.

Lemma onData_answers_true self metadata cm b cm' :
  onData_ self metadata cm = (Ok b, cm') → b = true.
Proof.
  unfold ResponseDecoder_onData, bind.
  destruct (deref self cm) as [[t|e] cm0]; [|done].
  destruct (nonnull (response_decoder_ t) cm0) as [[rd|e] cm1]; [|done].
  destruct (store self _ cm1) as [[[]|e] cm2]; [|done].
  destruct (ResponseDecoder_transportBegin metadata); simpl.
  - destruct (ResponseDecoder_transportEnd encode self cm2) as [[st|e] cm3]; [|done].
    unfold ret. by intros [= <- _].
  - unfold ret. by intros [= <- _].
Qed.

(** X16.  [upstreamData] never asks for more data: whenever it returns, the
    status is [Complete] or [Reset], never [MoreData]. *)
Theorem upstreamData_never_MoreData
    (self : nat) (metadata : MessageMetadata) (cm cm' : ConnectionManager)
    (status : ResponseStatus) :
  upstreamData_ self metadata cm = (Ok status, cm') →
  status ≠ MoreData.
Proof.
  unfold upstreamData, try_catch. unfold bind at 1.
  destruct (onData_ self metadata cm) as [[b|e] cm0] eqn:Hrun.
  - apply onData_answers_true in Hrun as ->. unfold ret. by intros [= <- _].
  - destruct e; try done.
    + unfold bind. destruct (onError encode self what cm0) as [[[]|e] cm1]; [|done].
      unfold ret. by intros [= <- _].
    + unfold bind.
      destruct (ActiveTrans_sendLocalReply encode self ex true cm0) as [[[]|e] cm1]; [|done].
      unfold ret. by intros [= <- _].
Qed.

End ResponsePath.

Lemma upstreamData_forwards_witness :
  ∃ cm',
    upstreamData Samples.encode Samples.transportBegin_continue 0 Samples.ok200
      (Samples.manager Open (Samples.trans_awaiting (Some Samples.invite)))
    = (Ok Complete, cm')
    ∧ calls (connection cm') = [write "SIP/2.0 200 OK;ep=127.0.0.1" false]
    ∧ transactions_ cm' !! "z9hG4bK-1" = Some 0.
Proof.
  destruct (upstreamData_forwards Samples.encode Samples.transportBegin_continue 0
              (Samples.trans_awaiting (Some Samples.invite)) (mkResponseDecoder None)
              Samples.ok200
              (Samples.manager Open (Samples.trans_awaiting (Some Samples.invite)))
              eq_refl eq_refl ltac:(done) eq_refl)
    as (cm' & Hrun & Hcalls & _ & Htrans & _).
  exists cm'. split; [exact Hrun|]. split.
  - rewrite Hcalls. reflexivity.
  - rewrite Htrans. reflexivity.
Defined.

Lemma upstreamData_never_MoreData_witness : Reset ≠ MoreData.
Proof.
  eapply (upstreamData_never_MoreData Samples.encode Samples.transportBegin_continue 0
            Samples.ok200
            (Samples.manager Closed (Samples.trans_awaiting (Some Samples.invite)))).
  vm_compute. reflexivity.
Defined.

(** *** [onError] *)

Section OnError.
Variable encode : MessageMetadata → Buffer.

(** X17.  [onError] on a live transaction.  With request metadata and a
    connection that is not closed, it sends the local reply with
    [end_stream]: the write, then [close(FlushWrite)], one
    [response_exception]; the metadata of the transaction now carries the
    local IP as EP; the transaction stays indexed and is not marked
    [local_response_sent_].  Without metadata, whatever the state of the
    connection, an indexed transaction goes to the deferred-delete list and
    out of the index, and the connection gets [close(NoFlush)] and no
    write. *)
Theorem onError_spec (self : nat) (t : ActiveTrans) (what : string) (cm : ConnectionManager) :
  heap cm !! self = Some t →
  (∀ md, metadata_ t = Some md → state (connection cm) ≠ Closed →
     ∃ cm',
       onError encode self what cm = (Ok tt, cm')
       ∧ calls (connection cm')
         = calls (connection cm)
           ++ [write (encode (setEP (getLocalIp cm) md)) true; close FlushWrite]
       ∧ stats_ cm' = inc response_exception (stats_ cm)
       ∧ transactions_ cm' = transactions_ cm
       ∧ deferred_delete cm' = deferred_delete cm
       ∧ heap cm' !! self = Some (set_metadata (Some (setEP (getLocalIp cm) md)) t))
  ∧ (metadata_ t = None →
     ∀ p, transactions_ cm !! transactionId_of t = Some p →
       onError encode self what cm
       = (Ok tt,
          upd_connection (call (close NoFlush))
            (upd_transactions (delete (transactionId_of t))
               (upd_deferred_delete (λ l, l ++ [p]) cm)))).
Proof.
  intros Ht. split.
  - intros md Hmd Hc. eexists. split.
    + unfold onError. erewrite bind_Ok by (by apply deref_Some). rewrite Hmd.
      unfold ActiveTrans_sendLocalReply.
      erewrite bind_Ok by (by apply deref_Some). rewrite Hmd.
      unfold bind at 1, nonnull at 1, ret at 1.
      erewrite bind_Ok by (by apply sendLocalReply_exception_open).
      erewrite bind_Ok by (by apply store_Some).
      reflexivity.
    + simpl. rewrite <- app_assoc. rewrite lookup_insert_eq. by split_and!.
  - intros Hmd p Hp. unfold onError.
    erewrite bind_Ok by (by apply deref_Some). rewrite Hmd.
    erewrite bind_Ok; [done|]. by apply onReset_indexed.
Qed.

End OnError.

Lemma onError_spec_witness :
  ∃ cm',
    onError Samples.encode 0 "bad response"
      (Samples.manager Open (Samples.trans_awaiting (Some Samples.invite))) = (Ok tt, cm')
    ∧ calls (connection cm') = [write ";ep=127.0.0.1" true; close FlushWrite]
    ∧ transactions_ cm' !! "z9hG4bK-1" = Some 0.
Proof.
  destruct (proj1 (onError_spec Samples.encode 0
              (Samples.trans_awaiting (Some Samples.invite)) "bad response"
              (Samples.manager Open (Samples.trans_awaiting (Some Samples.invite)))
              eq_refl) Samples.invite eq_refl ltac:(done))
    as (cm' & Hrun & Hcalls & _ & Htrans & _).
  exists cm'. split; [exact Hrun|]. split.
  - rewrite Hcalls. reflexivity.
  - rewrite Htrans. reflexivity.
Defined.

(** *** TRA responses *)

Lemma for_each_subscribe_item resp cm :
  for_each subscribe_item resp cm
  = (Ok tt,
     mkConnectionManager (connection cm) (stats_ cm) (heap cm) (next_addr cm)
       (transactions_ cm) (deferred_delete cm)
       (foldl subscribe_cookie (p_cookie_ip_map_ cm) resp)
       (decoder_metadata cm) (local_reply_calls cm)).
Proof.
  revert cm; induction resp as [|item resp IH]; intros cm.
  - by destruct cm.
  - cbn [for_each foldl]. unfold bind at 1, subscribe_item at 1, modify at 1.
    by rewrite IH.
Qed.

Lemma subscribe_cookie_keeps resp (m : gmap string string) key host0 :
  m !! key = Some host0 → foldl subscribe_cookie m resp !! key = Some host0.
Proof.
  revert m; induction resp as [|item resp IH]; intros m Hk; simpl; [done|].
  apply IH. unfold subscribe_cookie, emplace.
  destruct (m !! item.1) eqn:E; [done|].
  rewrite lookup_insert_ne; [done|]. intros Heq. rewrite Heq in E. congruence.
Qed.

Lemma subscribe_cookie_absent resp (m : gmap string string) key :
  m !! key = None → key ∉ resp.*1 → foldl subscribe_cookie m resp !! key = None.
Proof.
  revert m; induction resp as [|item resp IH]; intros m Hk Hnot; simpl; [done|].
  rewrite fmap_cons in Hnot. apply not_elem_of_cons in Hnot as [Hne Hnot].
  apply IH; [|done]. unfold subscribe_cookie, emplace.
  destruct (m !! item.1); [done|]. by rewrite lookup_insert_ne.
Qed.

Lemma subscribe_cookie_adds resp (m : gmap string string) key host :
  m !! key = None → NoDup resp.*1 → (key, host) ∈ resp →
  foldl subscribe_cookie m resp !! key = Some host.
Proof.
  revert m; induction resp as [|item resp IH]; intros m Hk Hnd Hin; [by inversion Hin|].
  rewrite fmap_cons in Hnd. apply NoDup_cons in Hnd as [Hfresh Hnd].
  simpl. apply elem_of_cons in Hin as [<-|Hin].
  - apply subscribe_cookie_keeps. unfold subscribe_cookie, emplace. simpl.
    rewrite Hk. apply lookup_insert_eq.
  - apply IH; try done. unfold subscribe_cookie, emplace.
    destruct (m !! item.1) eqn:E; [done|].
    rewrite lookup_insert_ne; [done|]. intros Heq. apply Hfresh.
    apply list_elem_of_fmap. exists (key, host). by rewrite Heq.
Qed.

(** X18.  A [SubscribeLskpmcResp] merges the pairs of the response into
    the cookie map and does nothing else: the decoder is not driven, and the
    current metadata and the rest of the manager are as before.  A key the
    map already holds keeps its host; a key that is new gets the host of
    its pair, an empty host included; keys outside the response are not
    added. *)
Theorem complete_subscribe
    (decoder_onData : bool → M ConnectionManager unit)
    (resp : list (string * string)) (cm : ConnectionManager) :
  complete decoder_onData SubscribeLskpmcResp resp cm
  = (Ok tt,
     mkConnectionManager (connection cm) (stats_ cm) (heap cm) (next_addr cm)
       (transactions_ cm) (deferred_delete cm)
       (foldl subscribe_cookie (p_cookie_ip_map_ cm) resp)
       (decoder_metadata cm) (local_reply_calls cm))
  ∧ (∀ key host0, p_cookie_ip_map_ cm !! key = Some host0 →
       foldl subscribe_cookie (p_cookie_ip_map_ cm) resp !! key = Some host0)
  ∧ (∀ key host, p_cookie_ip_map_ cm !! key = None → NoDup resp.*1 → (key, host) ∈ resp →
       foldl subscribe_cookie (p_cookie_ip_map_ cm) resp !! key = Some host)
  ∧ (∀ key, p_cookie_ip_map_ cm !! key = None → key ∉ resp.*1 →
       foldl subscribe_cookie (p_cookie_ip_map_ cm) resp !! key = None).
Proof.
  split_and!.
  - apply for_each_subscribe_item.
  - intros key host0. apply subscribe_cookie_keeps.
  - intros key host. apply subscribe_cookie_adds.
  - intros key. apply subscribe_cookie_absent.
Qed.

Lemma setDestination_twice host host' metadata :
  setDestination host (setDestination host' metadata) = setDestination host metadata.
Proof. reflexivity. Qed.

Lemma retrieve_destination_fold resp metadata :
  foldl retrieve_destination metadata resp
  = match last_host resp with
    | Some host => setDestination host metadata
    | None => metadata
    end.
Proof.
  revert metadata; induction resp as [|item resp IH]; intros metadata; [done|].
  cbn [foldl last_host]. rewrite IH. unfold retrieve_destination.
  destruct (last_host resp) as [host|]; destruct (empty item.2); try done.
Qed.

(** X19.  The destination a [RetrieveLskpmcResp] leaves.  The decoder is
    driven again on a state whose current metadata has, as destination, the
    host of the last pair of the response with a non-empty host: later pairs
    override earlier ones.  When no pair has a non-empty host, the metadata
    is the one from before the response. *)
Theorem complete_retrieve_destination
    (decoder_onData : bool → M ConnectionManager unit)
    (resp : list (string * string)) (cm : ConnectionManager) :
  ∃ cm0,
    complete decoder_onData RetrieveLskpmcResp resp cm = continueHanding decoder_onData cm0
    ∧ decoder_metadata cm0
      = match last_host resp with
        | Some host => setDestination host (decoder_metadata cm)
        | None => decoder_metadata cm
        end
    ∧ destination (decoder_metadata cm0)
      = match last_host resp with
        | Some host => Some host
        | None => destination (decoder_metadata cm)
        end
    ∧ (∀ host, last_host resp = Some host → host ≠ "" ∧ host ∈ resp.*2).
Proof.
  eexists. split; [apply complete_retrieve_exec|].
  cbn [decoder_metadata]. rewrite retrieve_destination_fold.
  split_and!; [done| |].
  - by destruct (last_host resp).
  - clear. induction resp as [|item resp IH]; intros host; [done|].
    cbn [last_host]. rewrite fmap_cons.
    destruct (last_host resp) as [h|].
    + intros [= <-]. destruct (IH h eq_refl). split; [done|by right].
    + destruct (empty item.2) eqn:E; [done|]. intros [= <-].
      split; [by apply empty_false|by left].
Qed.

(** *** Decoder events after a local reply *)

Section AfterLocalReply.
Variable filter_call : nat → Stage → option MessageMetadata → M ConnectionManager FilterStatus.

Lemma applyDecoderFilters_sent self filter t cm :
  heap cm !! self = Some t →
  local_response_sent_ t = true →
  applyDecoderFilters filter_call self filter cm
  = (Ok Continue, upd_heap <[self := cleared t]> cm).
Proof.
  intros Ht Hflag. unfold applyDecoderFilters.
  erewrite bind_Ok by (by apply deref_Some). rewrite Hflag.
  unfold bind at 1, ret at 1. by apply finish_walk_live.
Qed.

Lemma upd_heap_twice f g cm : upd_heap f (upd_heap g cm) = upd_heap (λ h, f (g h)) cm.
Proof. reflexivity. Qed.

(** X20.  Once a local reply has marked the transaction
    [local_response_sent_], the remaining decoder events of the message go
    through without reaching a filter: each of the four event handlers
    returns [Continue] and clears the filter action, whatever the filters
    would do.  [messageBegin] still records the metadata and [transportEnd]
    still counts the request. *)
Theorem events_after_local_reply (self : nat) (t : ActiveTrans) (cm : ConnectionManager) :
  heap cm !! self = Some t →
  local_response_sent_ t = true →
  (∀ metadata,
     ActiveTrans_transportBegin filter_call self metadata cm
     = (Ok Continue, upd_heap <[self := cleared t]> cm))
  ∧ (∀ metadata,
       ActiveTrans_messageBegin filter_call self metadata cm
       = (Ok Continue, upd_heap <[self := cleared (set_metadata (Some metadata) t)]> cm))
  ∧ ActiveTrans_messageEnd filter_call self cm
    = (Ok Continue, upd_heap <[self := cleared t]> cm)
  ∧ ActiveTrans_transportEnd filter_call self cm
    = (Ok Continue, upd_heap <[self := cleared t]> (upd_stats (inc request) cm)).
Proof.
  intros Ht Hflag. split_and!.
  - intros metadata. unfold ActiveTrans_transportBegin.
    erewrite bind_Ok by (by apply store_Some).
    erewrite bind_Ok by (apply store_Some, lookup_insert_eq).
    erewrite applyDecoderFilters_sent; [|apply lookup_insert_eq|done].
    rewrite !upd_heap_twice. unfold upd_heap. simpl. by rewrite !insert_insert_eq.
  - intros metadata. unfold ActiveTrans_messageBegin.
    erewrite bind_Ok by (by apply store_Some).
    erewrite bind_Ok by (apply store_Some, lookup_insert_eq).
    erewrite bind_Ok by (apply store_Some, lookup_insert_eq).
    erewrite applyDecoderFilters_sent; [|apply lookup_insert_eq|done].
    rewrite !upd_heap_twice. unfold upd_heap. simpl. by rewrite !insert_insert_eq.
  - unfold ActiveTrans_messageEnd.
    erewrite bind_Ok by (by apply store_Some).
    erewrite applyDecoderFilters_sent; [|apply lookup_insert_eq|done].
    rewrite !upd_heap_twice. unfold upd_heap. simpl. by rewrite !insert_insert_eq.
  - unfold ActiveTrans_transportEnd. unfold bind at 1, modify at 1.
    erewrite bind_Ok by (by apply store_Some).
    erewrite applyDecoderFilters_sent; [|apply lookup_insert_eq|done].
    rewrite !upd_heap_twice. unfold upd_heap. simpl. by rewrite !insert_insert_eq.
Qed.

End AfterLocalReply.

Lemma events_after_local_reply_witness :
  ActiveTrans_messageEnd Samples.filter_call 0
    (Samples.manager Open (set_local_response_sent true Samples.trans_in_chain))
  = (Ok Continue,
     upd_heap <[0 := cleared (set_local_response_sent true Samples.trans_in_chain)]>
       (Samples.manager Open (set_local_response_sent true Samples.trans_in_chain))).
Proof.
  apply (events_after_local_reply Samples.filter_call 0
           (set_local_response_sent true Samples.trans_in_chain)
           (Samples.manager Open (set_local_response_sent true Samples.trans_in_chain))
           eq_refl eq_refl).
Defined.

(** *** The route cache *)

(** X21.  [route] answers from its cache.  Whatever the first call
    returned is what every later call returns, with the cache left as it
    is, even for a different metadata.  In particular a first call made
    while the transaction has no metadata caches the null route, and later
    calls return null although the configuration may have a route for the
    metadata that has arrived since. *)
Theorem route_is_cached
    (Route : Type) (routerConfig_route : MessageMetadata → option Route)
    (metadata_ metadata_' : option MessageMetadata) (cached_route_ : option (option Route)) :
  let first := route Route routerConfig_route metadata_ cached_route_ in
  route Route routerConfig_route metadata_' first.2 = first
  ∧ (cached_route_ = None → metadata_ = None →
       route Route routerConfig_route metadata_' first.2 = (None, Some None))
  ∧ (cached_route_ = None → ∀ metadata, metadata_ = Some metadata →
       first.1 = routerConfig_route metadata).
Proof.
  intros first. unfold first, route. split_and!.
  - by destruct cached_route_.
  - by intros -> ->.
  - by intros -> metadata ->.
Qed.

(** *** The index of transactions *)

Section Index.
Variable make_ActiveTrans : MessageMetadata → ActiveTrans.

(** X22.  The index stays sound, so a close always resets cleanly.  Let
    the constructor file a transaction under the id of its message, and
    start from a manager in which every indexed transaction is alive and
    indexed under its own id and the addresses from [next_addr] on are
    unused.  Then, whatever requests are decoded, the same holds
    afterwards, and [resetAllTrans] returns normally and empties the
    index. *)
Theorem index_sound_after_requests
    (requests : list MessageMetadata) (cm : ConnectionManager) (local_reset : bool) :
  (∀ md k, transactionId md = Some k → transactionId_of (make_ActiveTrans md) = k) →
  allocator_fresh cm →
  indexed_by_id cm →
  let cm1 := decode_requests make_ActiveTrans requests cm in
  allocator_fresh cm1
  ∧ indexed_by_id cm1
  ∧ ∃ cm2, resetAllTrans local_reset cm1 = (Ok tt, cm2) ∧ transactions_ cm2 = ∅.
Proof.
  intros Hctor Hfresh Hwf cm1.
  assert (Hinv : allocator_fresh cm1 ∧ indexed_by_id cm1).
  { unfold cm1. clear cm1. revert cm Hfresh Hwf.
    induction requests as [|metadata rest IH]; intros cm Hfresh Hwf; [done|].
    cbn [decode_requests].
    destruct (newDecoderEventHandler_keeps_indexed make_ActiveTrans metadata cm
                (newDecoderEventHandler make_ActiveTrans metadata cm).1
                (newDecoderEventHandler make_ActiveTrans metadata cm).2
                Hctor Hfresh Hwf (surjective_pairing _)) as [Hfresh' Hwf'].
    by apply IH. }
  destruct Hinv as [Hfresh1 Hwf1]. split_and!; [done|done|].
  eexists. split; [by apply resetAllTrans_spec|done].
Qed.

(** X23.  A request needs a transaction id.  Without one,
    [newDecoderEventHandler] throws [bad_optional_access] and leaves the
    manager untouched.  With one, it returns normally, the returned
    transaction is the one indexed under the id, and the index entries of
    all other ids are as before. *)
Theorem newDecoderEventHandler_needs_id (metadata : MessageMetadata) (cm : ConnectionManager) :
  (transactionId metadata = None →
     newDecoderEventHandler make_ActiveTrans metadata cm = (Throw bad_optional_access, cm))
  ∧ (∀ k, transactionId metadata = Some k →
       ∃ p cm',
         newDecoderEventHandler make_ActiveTrans metadata cm = (Ok p, cm')
         ∧ transactions_ cm' !! k = Some p
         ∧ (∀ k', k' ≠ k → transactions_ cm' !! k' = transactions_ cm !! k')
         ∧ connection cm' = connection cm ∧ stats_ cm' = stats_ cm
         ∧ deferred_delete cm' = deferred_delete cm).
Proof.
  split.
  - intros Hk. unfold newDecoderEventHandler, bind, value, throw. by rewrite Hk.
  - intros k Hk. destruct (transactions_ cm !! k) as [p0|] eqn:Hp0.
    + destruct (decide (methodType metadata = Ack)) as [Hack|Hack].
      * exists p0, cm.
        rewrite (newDecoderEventHandler_ack_indexed _ _ k p0) by done. by split_and!.
      * eexists p0, _.
        rewrite (newDecoderEventHandler_other_indexed _ _ k p0) by done.
        by split_and!.
    + eexists _, _. rewrite (newDecoderEventHandler_fresh _ _ k) by done.
      split_and!; try done.
      * apply lookup_insert_eq.
      * intros k' Hne. simpl. by rewrite lookup_insert_ne.
Qed.

End Index.

Lemma sample_allocator_fresh st t : allocator_fresh (Samples.manager st t).
Proof.
  intros p Hp. simpl in *. apply lookup_singleton_ne. lia.
Qed.

Lemma sample_constructor md k :
  transactionId md = Some k → transactionId_of (Samples.make_ActiveTrans md) = k.
Proof. intros Hk. unfold Samples.make_ActiveTrans, transactionId_of. simpl. by rewrite Hk. Qed.

Lemma index_sound_after_requests_witness :
  indexed_by_id
    (decode_requests Samples.make_ActiveTrans
       [Samples.with_branch Invite "z9hG4bK-2"; Samples.with_branch Invite "z9hG4bK-1";
        Samples.invite; Samples.with_branch Ack "z9hG4bK-2"]
       (Samples.manager Open (Samples.trans_awaiting None))).
Proof.
  apply (index_sound_after_requests Samples.make_ActiveTrans
           [Samples.with_branch Invite "z9hG4bK-2"; Samples.with_branch Invite "z9hG4bK-1";
            Samples.invite; Samples.with_branch Ack "z9hG4bK-2"]
           (Samples.manager Open (Samples.trans_awaiting None)) false).
  - apply sample_constructor.
  - apply sample_allocator_fresh.
  - apply sample_manager_indexed.
Defined.

(** *** Starting and stopping a response *)

Section ResponseStart.
Variable encode : MessageMetadata → Buffer.
Variable ResponseDecoder_transportBegin : MessageMetadata → FilterStatus.

Lemma upstreamData_open_run self t rd metadata cm :
  heap cm !! self = Some t →
  response_decoder_ t = Some rd →
  state (connection cm) ≠ Closed →
  ResponseDecoder_transportBegin metadata = Continue →
  upstreamData encode ResponseDecoder_transportBegin self metadata cm
  = (Ok Complete,
     upd_stats (inc response)
       (upd_connection (call (write (encode (setEP (getLocalIp cm) metadata)) false))
          (upd_heap <[self := received (setEP (getLocalIp cm) metadata) t]> cm))).
Proof.
  intros Ht Hrd Hc Hcont.
  unfold upstreamData, try_catch. erewrite bind_Ok; cycle 1.
  { unfold ResponseDecoder_onData.
    erewrite bind_Ok by (by apply deref_Some). rewrite Hrd.
    unfold bind at 1, nonnull at 1, ret at 1.
    erewrite bind_Ok by (by apply store_Some).
    rewrite Hcont. simpl.
    erewrite bind_Ok; cycle 1.
    { unfold ResponseDecoder_transportEnd.
      erewrite bind_Ok by (apply deref_Some, lookup_insert_eq).
      cbn [response_decoder_ received set_response_decoder nonnull].
      unfold bind at 1, ret at 1.
      unfold bind at 1, get at 1.
      cbn [connection upd_heap]. rewrite decide_False by done.
      cbn [rd_metadata_ nonnull]. unfold bind at 1, ret at 1.
      erewrite bind_Ok by (apply store_Some, lookup_insert_eq).
      unfold bind, modify, ret. reflexivity. }
    reflexivity. }
  unfold ret. f_equal. unfold upd_stats, upd_connection, upd_heap, getLocalIp. simpl.
  by rewrite insert_insert_eq.
Qed.

(** X24.  [startUpstreamResponse] makes a transaction ready for
    [upstreamData].  On a live transaction, whatever response decoder it
    had or lacked before, and with a connection that is not closed and a
    [transportBegin] that continues, [startUpstreamResponse] followed by
    [upstreamData] returns [Complete] and forwards the response: one write
    of its encoding with the EP set to the local IP, one [response]
    counted. *)
Theorem startUpstreamResponse_then_upstreamData
    (self : nat) (t : ActiveTrans) (metadata : MessageMetadata) (cm : ConnectionManager) :
  heap cm !! self = Some t →
  state (connection cm) ≠ Closed →
  ResponseDecoder_transportBegin metadata = Continue →
  ∃ cm',
    (startUpstreamResponse self ;;;
     upstreamData encode ResponseDecoder_transportBegin self metadata) cm
    = (Ok Complete, cm')
    ∧ calls (connection cm')
      = calls (connection cm) ++ [write (encode (setEP (getLocalIp cm) metadata)) false]
    ∧ stats_ cm' = inc response (stats_ cm)
    ∧ transactions_ cm' = transactions_ cm
    ∧ heap cm' !! self = Some (received (setEP (getLocalIp cm) metadata) t).
Proof.
  intros Ht Hc Hcont. eexists. split.
  - unfold startUpstreamResponse.
    erewrite bind_Ok by (by apply store_Some).
    eapply upstreamData_open_run; [apply lookup_insert_eq|done|done|done].
  - cbn [connection stats_ heap transactions_ upd_heap upd_connection upd_stats call calls].
    split_and!; try done.
    rewrite lookup_insert_eq. done.
Qed.

(** X25.  A response that the decoder's [transportBegin] stops is reported
    as [Complete] without being forwarded: whatever the state of the
    connection, [upstreamData] issues no call on it and moves no counter;
    only the response decoder remembers the response. *)
Theorem upstreamData_stopped
    (self : nat) (t : ActiveTrans) (rd : ResponseDecoder) (metadata : MessageMetadata)
    (cm : ConnectionManager) :
  heap cm !! self = Some t →
  response_decoder_ t = Some rd →
  ResponseDecoder_transportBegin metadata = StopIteration →
  upstreamData encode ResponseDecoder_transportBegin self metadata cm
  = (Ok Complete, upd_heap <[self := received metadata t]> cm)
  ∧ connection (upd_heap <[self := received metadata t]> cm) = connection cm
  ∧ stats_ (upd_heap <[self := received metadata t]> cm) = stats_ cm
  ∧ transactions_ (upd_heap <[self := received metadata t]> cm) = transactions_ cm.
Proof.
  intros Ht Hrd Hstop. split_and!; try done.
  unfold upstreamData, try_catch.
  erewrite bind_Ok by (by eapply onData_stopped). done.
Qed.

End ResponseStart.

Lemma startUpstreamResponse_then_upstreamData_witness :
  ∃ cm',
    (startUpstreamResponse 0 ;;;
     upstreamData Samples.encode Samples.transportBegin_continue 0 Samples.ok200)
      (Samples.manager Open Samples.trans_in_chain)
    = (Ok Complete, cm')
    ∧ calls (connection cm') = [write "SIP/2.0 200 OK;ep=127.0.0.1" false].
Proof.
  destruct (startUpstreamResponse_then_upstreamData Samples.encode
              Samples.transportBegin_continue 0 Samples.trans_in_chain Samples.ok200
              (Samples.manager Open Samples.trans_in_chain)
              eq_refl ltac:(done) eq_refl)
    as (cm' & Hrun & Hcalls & _).
  exists cm'. split; [exact Hrun|]. rewrite Hcalls. reflexivity.
Defined.

Lemma upstreamData_stopped_witness :
  upstreamData Samples.encode (λ _, StopIteration) 0 Samples.ok200
    (Samples.manager Open (Samples.trans_awaiting None))
  = (Ok Complete,
     upd_heap <[0 := received Samples.ok200 (Samples.trans_awaiting None)]>
       (Samples.manager Open (Samples.trans_awaiting None))).
Proof.
  apply (upstreamData_stopped Samples.encode (λ _, StopIteration) 0
           (Samples.trans_awaiting None) (mkResponseDecoder None) Samples.ok200
           (Samples.manager Open (Samples.trans_awaiting None)) eq_refl eq_refl eq_refl).
Defined.

End ConnManagerMoreFacts.
